(** * Personal notes organizer: the note state engine of [routes/+page]

    A shallow embedding of the script block of the notes page (storage
    helpers, note store, selection, filtering and sorting), followed by the
    properties of the specification that concern it.

    Conventions of the embedding.
    - A JavaScript string is a [string]; every character is one code unit.
    - A timestamp ([Date.now()]) is an integer, passed to the operation that
      reads the clock; [crypto.randomUUID()] is passed in the same way.
    - [undefined] for an optional property is [None]; [null] is [Null].
    - Host built-ins whose definition is not part of the repository
      ([JSON.parse], [JSON.stringify], [String.prototype.toLowerCase],
      [Intl.Collator.compare], the [browser] flag) are Section variables.
    - [localStorage] is a finite map from keys to strings together with the
      number of [setItem] calls it has received. *)

From Stdlib Require Import ZArith Ascii String Lia Sorted.
From stdpp Require Import base list strings gmap.

Local Open Scope Z_scope.

(** ** JavaScript values used by the page *)

(** [string | null] *)
Inductive nullable (A : Type) : Type :=
  | Null : nullable A
  | Val (a : A) : nullable A.
Arguments Null {A}.
Arguments Val {A} a.

(** The outcome of evaluating code that may throw. *)
Inductive completion (A : Type) : Type :=
  | Normal (a : A) : completion A
  | Throw (e : string) : completion A.
Arguments Normal {A} a.
Arguments Throw {A} e.

Definition bind {A B} (c : completion A) (k : A -> completion B) : completion B :=
  match c with
  | Normal a => k a
  | Throw e => Throw e
  end.

(** [try { body } catch { handler }] *)
Definition try_catch {A} (body : completion A) (handler : string -> completion A)
  : completion A :=
  match body with
  | Normal a => Normal a
  | Throw e => handler e
  end.

(** A JavaScript number as far as the page computes with them: an integer
    or [NaN] (which [Number(undefined)] produces). *)
Inductive number : Type :=
  | NaN : number
  | Num (z : Z) : number.

Definition number_sub (a b : number) : number :=
  match a, b with
  | Num x, Num y => Num (x - y)
  | _, _ => NaN
  end.

(** ToBoolean on a number: [0] and [NaN] are falsy. *)
Definition number_truthy (a : number) : bool :=
  match a with
  | NaN => false
  | Num z => negb (z =? 0)
  end.

(** [a || b] on numbers. *)
Definition number_or (a b : number) : number :=
  if number_truthy a then a else b.

(** [Number(b)] for [b : boolean | undefined]. *)
Definition Number_of_boolean (b : option bool) : number :=
  match b with
  | None => NaN
  | Some true => Num 1
  | Some false => Num 0
  end.

(** ToBoolean on [boolean | undefined]. *)
Definition boolean_truthy (b : option bool) : bool :=
  match b with
  | Some true => true
  | _ => false
  end.

(** [!s] for [s : string | null]: [null] and the empty string are falsy. *)
Definition string_falsy (s : option string) : bool :=
  match s with
  | None => true
  | Some EmptyString => true
  | Some _ => false
  end.

(** [a ?? b] *)
Definition nullish {A} (a b : option A) : option A :=
  match a with
  | Some x => Some x
  | None => b
  end.

(** ** Arrays *)

(** [arr[i]] for an arbitrary integer index: [undefined] out of range. *)
Definition array_get {A} (arr : list A) (i : Z) : option A :=
  if i <? 0 then None else arr !! Z.to_nat i.

(** [arr.findIndex(p)]: the first index whose element satisfies [p], or -1. *)
Fixpoint findIndex {A} (p : A -> bool) (arr : list A) : Z :=
  match arr with
  | [] => -1
  | x :: rest =>
      if p x then 0
      else let r := findIndex p rest in
           if r =? -1 then -1 else r + 1
  end.

(** [arr.find(p)] *)
Fixpoint find {A} (p : A -> bool) (arr : list A) : option A :=
  match arr with
  | [] => None
  | x :: rest => if p x then Some x else find p rest
  end.

(** [arr.splice(start, 1)] for [0 <= start]: the array without the element
    at [start] (unchanged when [start] is past the end). *)
Definition splice1 {A} (start : Z) (arr : list A) : list A :=
  take (Z.to_nat start) arr ++ drop (S (Z.to_nat start)) arr.

(** [Array.prototype.sort(cmp)].  ECMAScript requires the sort to be stable
    and treats a [NaN] comparator result as [+0]; for a consistent comparator
    this determines the result, which is the one computed here by stable
    insertion ([x] goes before the first [y] with [cmp x y <= 0]). *)
Definition sort_compare {A} (cmp : A -> A -> number) (x y : A) : Z :=
  match cmp x y with
  | NaN => 0
  | Num v => v
  end.

Fixpoint sort_insert {A} (cmp : A -> A -> number) (x : A) (l : list A) : list A :=
  match l with
  | [] => [x]
  | y :: rest =>
      if sort_compare cmp x y <=? 0 then x :: y :: rest
      else y :: sort_insert cmp x rest
  end.

Fixpoint Array_sort {A} (cmp : A -> A -> number) (arr : list A) : list A :=
  match arr with
  | [] => []
  | x :: rest => sort_insert cmp x (Array_sort cmp rest)
  end.

(** ** Strings *)

(** WhiteSpace and LineTerminator code units below 256, the ones
    [String.prototype.trim] strips: TAB, LF, VT, FF, CR, SP, NBSP. *)
Definition isWhiteSpace (c : ascii) : bool :=
  match c with
  | "009" | "010" | "011" | "012" | "013" | " " | "160" => true
  | _ => false
  end%char.

Fixpoint trimStart_chars (s : list ascii) : list ascii :=
  match s with
  | [] => []
  | c :: rest => if isWhiteSpace c then trimStart_chars rest else s
  end.

Definition trimEnd_chars (s : list ascii) : list ascii :=
  rev (trimStart_chars (rev s)).

Definition trim_chars (s : list ascii) : list ascii :=
  trimEnd_chars (trimStart_chars s).

(** [s.trim()] *)
Definition trim (s : string) : string :=
  string_of_list_ascii (trim_chars (list_ascii_of_string s)).

Fixpoint startsWith_chars (s q : list ascii) {struct q} : bool :=
  match q, s with
  | [], _ => true
  | _ :: _, [] => false
  | b :: q', a :: s' => if Ascii.eqb a b then startsWith_chars s' q' else false
  end.

Fixpoint includes_chars (s q : list ascii) : bool :=
  startsWith_chars s q ||
  match s with
  | [] => false
  | _ :: s' => includes_chars s' q
  end.

(** [s.includes(q)] *)
Definition includes (s q : string) : bool :=
  includes_chars (list_ascii_of_string s) (list_ascii_of_string q).

(** ** The data model *)

(** [type Note = { id; title; content; createdAt; updatedAt; pinned?; color? }] *)
Record Note : Type := mkNote {
  id : string;
  title : string;
  content : string;
  createdAt : Z;
  updatedAt : Z;
  pinned : option bool;
  color : option (nullable string)
}.

(** [Partial<Note>]: every property optional; [None] is "not supplied". *)
Record PartialNote : Type := mkPartial {
  p_id : option string;
  p_title : option string;
  p_content : option string;
  p_createdAt : option Z;
  p_updatedAt : option Z;
  p_pinned : option (option bool);
  p_color : option (option (nullable string))
}.

Definition supplied {A} (field : option A) (old : A) : A :=
  match field with
  | Some v => v
  | None => old
  end.

(** [{ ...n, ...partial, updatedAt: now }] *)
Definition spread_update (n : Note) (partial : PartialNote) (now : Z) : Note :=
  {| id := supplied (p_id partial) (id n);
     title := supplied (p_title partial) (title n);
     content := supplied (p_content partial) (content n);
     createdAt := supplied (p_createdAt partial) (createdAt n);
     updatedAt := now;
     pinned := supplied (p_pinned partial) (pinned n);
     color := supplied (p_color partial) (color n) |}.

(** [{ ...n, pinned: !n.pinned, updatedAt: now }] *)
Definition spread_togglePin (n : Note) (now : Z) : Note :=
  {| id := id n; title := title n; content := content n;
     createdAt := createdAt n; updatedAt := now;
     pinned := Some (negb (boolean_truthy (pinned n)));
     color := color n |}.

(** [{ ...n, color, updatedAt: now }] *)
Definition spread_setColor (n : Note) (c : nullable string) (now : Z) : Note :=
  {| id := id n; title := title n; content := content n;
     createdAt := createdAt n; updatedAt := now;
     pinned := pinned n;
     color := Some c |}.

(** [n.id === target] for [target : string | null] *)
Definition id_is (target : option string) (n : Note) : bool :=
  match target with
  | Some i => String.eqb (id n) i
  | None => false
  end.

Inductive SortMode : Type := updated | created | alpha.

(** ** JSON values and the encoding of notes *)

#[local] Unset Elimination Schemes.

(** What [JSON.parse] returns and [JSON.stringify] consumes.  Numbers are
    integers: the only numbers the page stores are millisecond timestamps. *)
Inductive json : Type :=
  | JNull : json
  | JBool (b : bool) : json
  | JNum (z : Z) : json
  | JStr (s : string) : json
  | JArr (elems : list json) : json
  | JObj (props : list (string * json)) : json.

#[local] Set Elimination Schemes.

(** [Array.isArray(v) ? v : []] *)
Definition array_or_empty (v : json) : list json :=
  match v with
  | JArr elems => elems
  | _ => []
  end.

Definition optional_prop {A} (key : string) (enc : A -> json) (v : option A)
  : list (string * json) :=
  match v with
  | Some a => [(key, enc a)]
  | None => []
  end.

Definition json_of_color (c : nullable string) : json :=
  match c with
  | Null => JNull
  | Val s => JStr s
  end.

(** The object a note is, as [JSON.stringify] sees it: own properties in the
    order of the literal in [createNote]; a property whose value is
    [undefined] is skipped. *)
Definition json_of_Note (n : Note) : json :=
  JObj ([("id", JStr (id n)); ("title", JStr (title n));
         ("content", JStr (content n)); ("createdAt", JNum (createdAt n));
         ("updatedAt", JNum (updatedAt n))]
        ++ optional_prop "pinned" JBool (pinned n)
        ++ optional_prop "color" json_of_color (color n)).

Fixpoint get_prop (key : string) (props : list (string * json)) : option json :=
  match props with
  | [] => None
  | (k, v) :: rest => if String.eqb k key then Some v else get_prop key rest
  end.

Definition as_string (v : option json) : option string :=
  match v with Some (JStr s) => Some s | _ => None end.

Definition as_number (v : option json) : option Z :=
  match v with Some (JNum z) => Some z | _ => None end.

(** [pinned?: boolean]: absent, or a boolean. *)
Definition as_optional_boolean (v : option json) : option (option bool) :=
  match v with
  | None => Some None
  | Some (JBool b) => Some (Some b)
  | Some _ => None
  end.

(** [color?: string | null]: absent, [null], or a string. *)
Definition as_optional_color (v : option json) : option (option (nullable string)) :=
  match v with
  | None => Some None
  | Some JNull => Some (Some Null)
  | Some (JStr s) => Some (Some (Val s))
  | Some _ => None
  end.

(** Reading a parsed value at type [Note].  The cast in [loadNotes] is
    unchecked; the typed model covers the values for which it is sound, and
    [Note_of_json] is [None] on every other value. *)
Definition Note_of_json (v : json) : option Note :=
  match v with
  | JObj props =>
      match as_string (get_prop "id" props),
            as_string (get_prop "title" props),
            as_string (get_prop "content" props),
            as_number (get_prop "createdAt" props),
            as_number (get_prop "updatedAt" props),
            as_optional_boolean (get_prop "pinned" props),
            as_optional_color (get_prop "color" props) with
      | Some i, Some t, Some c, Some ca, Some ua, Some p, Some col =>
          Some (mkNote i t c ca ua p col)
      | _, _, _, _, _, _, _ => None
      end
  | _ => None
  end.

(** [parsed as Note[]] *)
Definition as_Notes (elems : list json) : option (list Note) :=
  mapM Note_of_json elems.

(** ** localStorage *)

Record Storage : Type := mkStorage {
  items : gmap string string;
  setItem_calls : nat
}.

Definition getItem (key : string) (ls : Storage) : option string :=
  items ls !! key.

Definition setItem (key value : string) (ls : Storage) : Storage :=
  {| items := <[key := value]> (items ls);
     setItem_calls := S (setItem_calls ls) |}.

Definition STORAGE_KEY : string := "notes-app-v1".

(** ** App state *)

Record State : Type := mkState {
  notes : list Note;
  query : string;
  selectedId : option string;
  sortBy : SortMode;
  showPinnedOnly : bool;
  localStorage : Storage
}.

Definition set_notes (ns : list Note) (s : State) : State :=
  {| notes := ns; query := query s; selectedId := selectedId s;
     sortBy := sortBy s; showPinnedOnly := showPinnedOnly s;
     localStorage := localStorage s |}.

Definition set_selectedId (sel : option string) (s : State) : State :=
  {| notes := notes s; query := query s; selectedId := sel;
     sortBy := sortBy s; showPinnedOnly := showPinnedOnly s;
     localStorage := localStorage s |}.

Definition set_localStorage (ls : Storage) (s : State) : State :=
  {| notes := notes s; query := query s; selectedId := selectedId s;
     sortBy := sortBy s; showPinnedOnly := showPinnedOnly s;
     localStorage := ls |}.


(** [bind:value={query}] *)
Definition set_query (q : string) (s : State) : State :=
  {| notes := notes s; query := q; selectedId := selectedId s;
     sortBy := sortBy s; showPinnedOnly := showPinnedOnly s;
     localStorage := localStorage s |}.

(** [bind:checked={showPinnedOnly}] *)
Definition set_showPinnedOnly (b : bool) (s : State) : State :=
  {| notes := notes s; query := query s; selectedId := selectedId s;
     sortBy := sortBy s; showPinnedOnly := b;
     localStorage := localStorage s |}.

(** *** What the list and the editor show of a note *)

(** [s.slice(0, k)] *)
Definition slice0 (k : nat) (s : string) : string :=
  string_of_list_ascii (take k (list_ascii_of_string s)).


(** [n.content ? n.content.slice(0, 60) : 'No content'] *)
Definition preview (n : Note) : string :=
  if String.eqb (content n) EmptyString then "No content"
  else slice0 60 (content n).

(** [n.color ?? 'transparent'] *)
Definition swatch (n : Note) : string :=
  match color n with
  | Some (Val c) => c
  | _ => "transparent"
  end.

(** [selected.pinned ? 'Unpin' : 'Pin'] *)
Definition pin_label (n : Note) : string :=
  if boolean_truthy (pinned n) then "Unpin" else "Pin".

(** The operations of the page, with the clock and UUID values they read. *)
Inductive Op : Type :=
  | OpCreate (ts : Z) (uuid : string)
  | OpUpdate (partial : PartialNote) (now : Z)
  | OpDelete
  | OpTogglePin (arg : option string) (now : Z)
  | OpSetColor (c : nullable string) (now : Z)
  | OpSelect (i : string).

(** The selection refers to a note of the collection. *)
Definition selection_valid (s : State) : Prop :=
  forall i, selectedId s = Some i -> exists n, n ∈ notes s /\ id n = i.

(** [w] occurs in [t] as a contiguous run of characters. *)
Definition substring_of (w t : string) : Prop :=
  exists pre post, t = (pre +:+ w +:+ post)%string.

(** [w] occurs in [t] as a contiguous run, on lists of code units. *)
Definition infix_of (w t : list ascii) : Prop :=
  exists pre post, t = pre ++ w ++ post.

(** No unpinned note before a pinned one, for the pair [a], [b] in that
    order. *)
Definition pin_ordered (a b : Note) : Prop :=
  ~ (pinned a = Some false /\ pinned b = Some true).

(** A collator that orders strings: its "not after" relation is transitive
    and total. *)
Definition collator_consistent (cc : string -> string -> Z) : Prop :=
  (forall x y z, cc x y <= 0 -> cc y z <= 0 -> cc x z <= 0) /\
  (forall x y, 0 < cc x y -> cc y x <= 0).

(** [a] occurs strictly before [b] in [l]. *)
Definition precedes {A} (a b : A) (l : list A) : Prop :=
  exists l1 l2 l3, l = l1 ++ a :: l2 ++ b :: l3.

(** ** Reference host

    Executable stand-ins for the host built-ins, used to run the model on
    concrete inputs.  The theorems below hold for every host. *)
Module Reference.

Definition dquote : ascii := "034"%char.
Definition backslash : ascii := "092"%char.

Definition hex_digit (n : N) : ascii :=
  if (n <? 10)%N then ascii_of_N (48 + n) else ascii_of_N (87 + n).

(** QuoteJSONString, one code unit. *)
Definition quote_char (c : ascii) : list ascii :=
  let n := N_of_ascii c in
  if Ascii.eqb c dquote then [backslash; dquote]
  else if Ascii.eqb c backslash then [backslash; backslash]
  else if (n =? 8)%N then [backslash; "b"%char]
  else if (n =? 9)%N then [backslash; "t"%char]
  else if (n =? 10)%N then [backslash; "n"%char]
  else if (n =? 12)%N then [backslash; "f"%char]
  else if (n =? 13)%N then [backslash; "r"%char]
  else if (n <? 32)%N then
    [backslash; "u"%char; "0"%char; "0"%char;
     hex_digit (n / 16); hex_digit (n mod 16)]
  else [c].

Definition quote (s : string) : list ascii :=
  dquote :: concat (quote_char <$> list_ascii_of_string s) ++ [dquote].

Fixpoint digits_of (fuel : nat) (n : N) (acc : list ascii) : list ascii :=
  match fuel with
  | O => acc
  | S fuel' =>
      let acc' := ascii_of_N (48 + n mod 10) :: acc in
      if (n <? 10)%N then acc' else digits_of fuel' (n / 10) acc'
  end.

Definition number_text (z : Z) : list ascii :=
  let n := Z.to_N (Z.abs z) in
  let ds := digits_of (S (N.to_nat (N.log2 n))) n [] in
  if z <? 0 then "-"%char :: ds else ds.

Fixpoint join (sep : list ascii) (parts : list (list ascii)) : list ascii :=
  match parts with
  | [] => []
  | [p] => p
  | p :: rest => p ++ sep ++ join sep rest
  end.

Fixpoint text_of (v : json) : list ascii :=
  match v with
  | JNull => list_ascii_of_string "null"
  | JBool true => list_ascii_of_string "true"
  | JBool false => list_ascii_of_string "false"
  | JNum z => number_text z
  | JStr s => quote s
  | JArr elems =>
      "["%char :: join [","%char] (List.map text_of elems) ++ ["]"%char]
  | JObj props =>
      "{"%char ::
      join [","%char]
        (List.map (fun kv => quote (fst kv) ++ ":"%char :: text_of (snd kv)) props)
      ++ ["}"%char]
  end.

(** [JSON.stringify] without indentation. *)
Definition stringify (v : json) : string :=
  string_of_list_ascii (text_of v).

Definition is_json_space (c : ascii) : bool :=
  match c with
  | "009" | "010" | "013" | " " => true
  | _ => false
  end%char.

Fixpoint skip_ws (s : list ascii) : list ascii :=
  match s with
  | c :: rest => if is_json_space c then skip_ws rest else s
  | [] => []
  end.

Definition is_digit (c : ascii) : bool :=
  let n := N_of_ascii c in ((48 <=? n) && (n <=? 57))%N.

Fixpoint read_digits (s : list ascii) (acc : Z) : Z * list ascii :=
  match s with
  | c :: rest =>
      if is_digit c
      then read_digits rest (10 * acc + Z.of_N (N_of_ascii c) - 48)
      else (acc, s)
  | [] => (acc, [])
  end.

Definition hex_value (c : ascii) : option N :=
  let n := N_of_ascii c in
  if ((48 <=? n) && (n <=? 57))%N then Some (n - 48)%N
  else if ((97 <=? n) && (n <=? 102))%N then Some (n - 87)%N
  else if ((65 <=? n) && (n <=? 70))%N then Some (n - 55)%N
  else None.

(** The characters of a string literal after its opening quote. *)
Fixpoint read_string (s : list ascii) (acc : list ascii)
  : option (string * list ascii) :=
  match s with
  | [] => None
  | c :: rest =>
      if Ascii.eqb c dquote
      then Some (string_of_list_ascii (rev acc), rest)
      else if Ascii.eqb c backslash then
        match rest with
        | "b"%char :: r => read_string r ("008"%char :: acc)
        | "t"%char :: r => read_string r ("009"%char :: acc)
        | "n"%char :: r => read_string r ("010"%char :: acc)
        | "f"%char :: r => read_string r ("012"%char :: acc)
        | "r"%char :: r => read_string r ("013"%char :: acc)
        | "/"%char :: r => read_string r ("/"%char :: acc)
        | "u"%char :: "0"%char :: "0"%char :: h :: l :: r =>
            match hex_value h, hex_value l with
            | Some a, Some b => read_string r (ascii_of_N (16 * a + b) :: acc)
            | _, _ => None
            end
        | e :: r =>
            if Ascii.eqb e dquote || Ascii.eqb e backslash
            then read_string r (e :: acc) else None
        | [] => None
        end
      else if (N_of_ascii c <? 32)%N then None
      else read_string rest (c :: acc)
  end.

Fixpoint read_value (fuel : nat) (s : list ascii) : option (json * list ascii) :=
  match fuel with
  | O => None
  | S fuel' =>
      match skip_ws s with
      | "n"%char :: "u"%char :: "l"%char :: "l"%char :: r => Some (JNull, r)
      | "t"%char :: "r"%char :: "u"%char :: "e"%char :: r => Some (JBool true, r)
      | "f"%char :: "a"%char :: "l"%char :: "s"%char :: "e"%char :: r =>
          Some (JBool false, r)
      | "["%char :: r =>
          match skip_ws r with
          | "]"%char :: r' => Some (JArr [], r')
          | _ =>
              match read_elements fuel' r with
              | Some (elems, r') => Some (JArr elems, r')
              | None => None
              end
          end
      | "{"%char :: r =>
          match skip_ws r with
          | "}"%char :: r' => Some (JObj [], r')
          | _ =>
              match read_members fuel' r with
              | Some (props, r') => Some (JObj props, r')
              | None => None
              end
          end
      | "-"%char :: c :: r =>
          if is_digit c
          then let '(z, r') := read_digits (c :: r) 0 in Some (JNum (- z), r')
          else None
      | c :: r =>
          if Ascii.eqb c dquote then
            match read_string r [] with
            | Some (str, r') => Some (JStr str, r')
            | None => None
            end
          else if is_digit c
          then let '(z, r') := read_digits (c :: r) 0 in Some (JNum z, r')
          else None
      | [] => None
      end
  end
with read_elements (fuel : nat) (s : list ascii)
  : option (list json * list ascii) :=
  match fuel with
  | O => None
  | S fuel' =>
      match read_value fuel' s with
      | Some (v, r) =>
          match skip_ws r with
          | ","%char :: r' =>
              match read_elements fuel' r' with
              | Some (vs, r'') => Some (v :: vs, r'')
              | None => None
              end
          | "]"%char :: r' => Some ([v], r')
          | _ => None
          end
      | None => None
      end
  end
with read_members (fuel : nat) (s : list ascii)
  : option (list (string * json) * list ascii) :=
  match fuel with
  | O => None
  | S fuel' =>
      match skip_ws s with
      | c :: r =>
          if Ascii.eqb c dquote then
            match read_string r [] with
            | Some (key, r1) =>
                match skip_ws r1 with
                | ":"%char :: r2 =>
                    match read_value fuel' r2 with
                    | Some (v, r3) =>
                        match skip_ws r3 with
                        | ","%char :: r4 =>
                            match read_members fuel' r4 with
                            | Some (ps, r5) => Some ((key, v) :: ps, r5)
                            | None => None
                            end
                        | "}"%char :: r4 => Some ([(key, v)], r4)
                        | _ => None
                        end
                    | None => None
                    end
                | _ => None
                end
            | None => None
            end
          else None
      | [] => None
      end
  end.

(** [JSON.parse]: one value surrounded by white space, or a [SyntaxError]. *)
Definition parse (text : string) : completion json :=
  let s := list_ascii_of_string text in
  match read_value (S (List.length s)) s with
  | Some (v, rest) =>
      match skip_ws rest with
      | [] => Normal v
      | _ => Throw "SyntaxError"
      end
  | None => Throw "SyntaxError"
  end.

Definition lower_char (c : ascii) : ascii :=
  let n := N_of_ascii c in
  if ((65 <=? n) && (n <=? 90))%N then ascii_of_N (n + 32) else c.

(** [toLowerCase] on the letters A to Z. *)
Definition toLowerCase (s : string) : string :=
  string_of_list_ascii (lower_char <$> list_ascii_of_string s).

(** A case-insensitive comparison of titles. *)
Definition collator_compare (a b : string) : Z :=
  match String.compare (toLowerCase a) (toLowerCase b) with
  | Lt => -1
  | Eq => 0
  | Gt => 1
  end.

Definition empty_storage : Storage :=
  {| items := ∅; setItem_calls := O |}.

Definition storage_with (raw : string) : Storage :=
  {| items := {[ STORAGE_KEY := raw ]}; setItem_calls := O |}.

End Reference.

(** ** Sample data *)
Module Sample.

Definition note (i t : string) (at_ : Z) (p : option bool) : Note :=
  {| id := i; title := t; content := EmptyString;
     createdAt := at_; updatedAt := at_; pinned := p; color := None |}.

Definition A : Note := note "a" "Apple" 30 (Some false).
Definition B : Note := note "b" "banana" 20 (Some false).
Definition C : Note := note "c" "My TODO list" 10 (Some true).

(** A note stored without a [pinned] property. *)
Definition legacy : Note := note "legacy" "old entry" 75 None.
Definition plain : Note := note "plain" "recent" 100 (Some false).
Definition starred : Note := note "starred" "keep" 50 (Some true).

(** A note whose id is the empty string. *)
Definition anonymous : Note := note EmptyString "no id" 5 (Some false).

Definition state_of (ns : list Note) (sel : option string) (ls : Storage) : State :=
  {| notes := ns; query := EmptyString; selectedId := sel;
     sortBy := updated; showPinnedOnly := false; localStorage := ls |}.

Definition rename_to (i : string) : PartialNote :=
  {| p_id := Some i; p_title := None; p_content := None; p_createdAt := None;
     p_updatedAt := None; p_pinned := None; p_color := None |}.

Definition retitle (t : string) : PartialNote :=
  {| p_id := None; p_title := Some t; p_content := None; p_createdAt := None;
     p_updatedAt := None; p_pinned := None; p_color := None |}.

Definition empty : State := state_of [] None Reference.empty_storage.
Definition unselected : State := state_of [A; B] None Reference.empty_storage.
Definition stale : State := state_of [A; B] (Some "gone") Reference.empty_storage.
Definition abc : State := state_of [A; B; C] (Some "b") Reference.empty_storage.
Definition ab : State := state_of [A; B] (Some "b") Reference.empty_storage.
Definition a_selected : State := state_of [A; B] (Some "a") Reference.empty_storage.
Definition nameless : State :=
  state_of [anonymous] (Some EmptyString) Reference.empty_storage.

(** A session: create a note, select b, delete it, pin the new selection,
    retitle it. *)
Definition session : list Op :=
  [OpCreate 50 "n1"; OpSelect "b"; OpDelete; OpTogglePin None 60;
   OpUpdate (retitle "groceries") 70].

(** A second note with the timestamps and pin flag of [A]. *)
Definition A2 : Note := note "a2" "Apricot" 30 (Some false).

(** A note with content. *)
Definition memo : Note :=
  {| id := "memo"; title := EmptyString; content := "buy milk and bread";
     createdAt := 40; updatedAt := 45; pinned := None;
     color := Some (Val "#FFF9C4") |}.

(** A storage that holds an item of another application. *)
Definition shared_storage : Storage :=
  {| items := {[ "theme" := "dark" ]}; setItem_calls := O |}.

Definition in_shared_storage : State :=
  state_of [A; B] (Some "a") shared_storage.

End Sample.

Section Page.

#[local] Set Default Proof Using "Type".

(** [import { browser } from '$app/environment'] *)
Variable browser : bool.
(** [JSON.parse]: a value, or a [SyntaxError]. *)
Variable JSON_parse : string -> completion json.
Variable JSON_stringify : json -> string.
(** [String.prototype.toLowerCase] *)
Variable toLowerCase : string -> string.
(** [new Intl.Collator(undefined, { sensitivity: 'base' }).compare] *)
Variable collator_compare : string -> string -> Z.

(** *** Storage helpers *)

Definition loadNotes (ls : Storage) : completion (list json) :=
  if negb browser then Normal []
  else
    try_catch
      (let raw := getItem STORAGE_KEY ls in
       if string_falsy raw then Normal []
       else
         bind (JSON_parse (default EmptyString raw)) (fun parsed =>
         Normal (array_or_empty parsed)))
      (fun _ => Normal []).

Definition saveNotes (ns : list Note) (ls : Storage) : Storage :=
  if negb browser then ls
  else setItem STORAGE_KEY (JSON_stringify (JArr (json_of_Note <$> ns))) ls.

(** [let notes = loadNotes(); ... let selectedId = notes.length ? notes[0].id : null;]
    with the remaining state variables at their initial values. *)
Definition initial_state (loaded : list Note) (ls : Storage) : State :=
  {| notes := loaded;
     query := EmptyString;
     selectedId := if (Z.of_nat (length loaded) =? 0) then None
                   else id <$> array_get loaded 0;
     sortBy := updated;
     showPinnedOnly := false;
     localStorage := ls |}.

(** [loadNotes()] at its declared type [Note[]]. *)
Definition loadNotes_typed (ls : Storage) : option (list Note) :=
  match loadNotes ls with
  | Normal elems => as_Notes elems
  | Throw _ => None
  end.

(** Start-up. *)
Definition boot (ls : Storage) : option State :=
  (fun loaded => initial_state loaded ls) <$> loadNotes_typed ls.

(** [$: if (browser) saveNotes(notes);], which the framework runs after
    an assignment to [notes]. *)
Definition reactive_persist (s : State) : State :=
  if browser then set_localStorage (saveNotes (notes s) (localStorage s)) s
  else s.

(** *** Note store *)

Definition createNote (ts : Z) (uuid : string) (s : State) : State :=
  let note := {| id := uuid; title := "Untitled"; content := EmptyString;
                 createdAt := ts; updatedAt := ts;
                 pinned := Some false; color := Some Null |} in
  let s := set_notes (note :: notes s) s in
  let s := set_selectedId (Some (id note)) s in
  set_localStorage (saveNotes (notes s) (localStorage s)) s.

Definition updateSelected (partial : PartialNote) (now : Z) (s : State) : State :=
  if string_falsy (selectedId s) then s
  else
    let s := set_notes
               ((fun n => if id_is (selectedId s) n
                          then spread_update n partial now else n)
                <$> notes s) s in
    set_localStorage (saveNotes (notes s) (localStorage s)) s.

(** [onTitleInput], [onContentInput]: the two callers of [updateSelected]. *)
Definition onTitleInput (value : string) (now : Z) (s : State) : State :=
  updateSelected
    {| p_id := None; p_title := Some value; p_content := None;
       p_createdAt := None; p_updatedAt := None; p_pinned := None;
       p_color := None |} now s.

Definition onContentInput (value : string) (now : Z) (s : State) : State :=
  updateSelected
    {| p_id := None; p_title := None; p_content := Some value;
       p_createdAt := None; p_updatedAt := None; p_pinned := None;
       p_color := None |} now s.

Definition deleteSelected (s : State) : State :=
  if string_falsy (selectedId s) then s
  else
    let idx := findIndex (id_is (selectedId s)) (notes s) in
    if idx =? -1 then s
    else
      let next := splice1 idx (notes s) in
      let s := set_notes next s in
      let s := set_selectedId
                 (nullish (id <$> array_get (notes s) idx)
                    (nullish (id <$> array_get (notes s) (idx - 1)) None)) s in
      set_localStorage (saveNotes (notes s) (localStorage s)) s.

Definition selectNote (i : string) (s : State) : State :=
  set_selectedId (Some i) s.

(** [togglePin(id?)]: [arg = None] is a call without argument. *)
Definition togglePin (arg : option string) (now : Z) (s : State) : State :=
  let targetId := nullish arg (selectedId s) in
  if string_falsy targetId then s
  else
    let s := set_notes
               ((fun n => if id_is targetId n
                          then spread_togglePin n now else n)
                <$> notes s) s in
    set_localStorage (saveNotes (notes s) (localStorage s)) s.

Definition setColor (c : nullable string) (now : Z) (s : State) : State :=
  if string_falsy (selectedId s) then s
  else
    let s := set_notes
               ((fun n => if id_is (selectedId s) n
                          then spread_setColor n c now else n)
                <$> notes s) s in
    set_localStorage (saveNotes (notes s) (localStorage s)) s.

(** *** Filtering and sorting *)

Definition normalize (s : string) : string := trim (toLowerCase s).

Definition matches (n : Note) (q : string) : bool :=
  if String.eqb q EmptyString then true
  else
    let t := normalize (title n) in
    let c := normalize (content n) in
    let qq := normalize q in
    includes t qq || includes c qq.

Definition by_pinned (a b : Note) : number :=
  number_sub (Number_of_boolean (pinned b)) (Number_of_boolean (pinned a)).

Definition compare_notes (mode : SortMode) (a b : Note) : number :=
  match mode with
  | updated => number_or (by_pinned a b) (Num (updatedAt b - updatedAt a))
  | created => number_or (by_pinned a b) (Num (createdAt b - createdAt a))
  | alpha => number_or (by_pinned a b) (Num (collator_compare (title a) (title b)))
  end.

Definition sorted (mode : SortMode) (l : list Note) : list Note :=
  Array_sort (compare_notes mode) l.

Definition keep (q : string) (pinnedOnly : bool) (n : Note) : bool :=
  matches n q && (negb pinnedOnly || boolean_truthy (pinned n)).

(** [$: filtered = sorted(notes.filter(...))] *)
Definition filtered (s : State) : list Note :=
  sorted (sortBy s) (List.filter (keep (query s) (showPinnedOnly s)) (notes s)).

(** [$: selected = notes.find(n => n.id === selectedId) ?? null] *)
Definition selected (s : State) : option Note :=
  find (id_is (selectedId s)) (notes s).

(** *** Sequences of operations *)

Definition step (op : Op) (s : State) : State :=
  match op with
  | OpCreate ts uuid => createNote ts uuid s
  | OpUpdate partial now => updateSelected partial now s
  | OpDelete => deleteSelected s
  | OpTogglePin arg now => togglePin arg now s
  | OpSetColor c now => setColor c now s
  | OpSelect i => selectNote i s
  end.

Definition run (ops : list Op) (s : State) : State :=
  fold_left (fun acc op => step op acc) ops s.

(** The calls the page itself makes: the list item handler passes
    [selectNote] the id of a listed note, and the input handlers pass
    [updateSelected] a title or a content, never an [id]. *)
Definition from_page (op : Op) (s : State) : bool :=
  match op with
  | OpSelect i => existsb (id_is (Some i)) (notes s)
  | OpUpdate partial _ =>
      match p_id partial with None => true | Some _ => false end
  | _ => true
  end.

Fixpoint run_from_page (ops : list Op) (s : State) : bool :=
  match ops with
  | [] => true
  | op :: rest => from_page op s && run_from_page rest (step op s)
  end.

(** A create is given an id that no note of the collection has. *)
Definition fresh_id (op : Op) (s : State) : bool :=
  match op with
  | OpCreate _ uuid => negb (existsb (id_is (Some uuid)) (notes s))
  | _ => true
  end.

Fixpoint run_fresh_ids (ops : list Op) (s : State) : bool :=
  match ops with
  | [] => true
  | op :: rest => fresh_id op s && run_fresh_ids rest (step op s)
  end.

(** The operation reads [t] off the clock (if it reads the clock at all)
    and, for an update, supplies no [createdAt]. *)
Definition reads_clock (t : Z) (op : Op) : bool :=
  match op with
  | OpCreate ts _ => ts =? t
  | OpUpdate partial now =>
      (now =? t) && match p_createdAt partial with None => true | Some _ => false end
  | OpTogglePin _ now => now =? t
  | OpSetColor _ now => now =? t
  | OpDelete => true
  | OpSelect _ => true
  end.

(** The sort key that follows the pin flag. *)
Definition secondary (mode : SortMode) (a b : Note) : Z :=
  match mode with
  | updated => updatedAt b - updatedAt a
  | created => createdAt b - createdAt a
  | alpha => collator_compare (title a) (title b)
  end.

(** The storage item holds the JSON text of the collection in memory. *)
Definition stored (s : State) : Prop :=
  getItem STORAGE_KEY (localStorage s)
  = Some (JSON_stringify (JArr (json_of_Note <$> notes s))).

(** ** Properties *)

(** *** Arrays *)

Lemma fmap_unless_hit {A} (p : A -> bool) (f : A -> A) (l : list A) :
  (forall x, x ∈ l -> p x = false) ->
  (fun x => if p x then f x else x) <$> l = l.
Proof.
  induction l as [|x l IH]; intros Hp; [reflexivity|].
  rewrite fmap_cons, (Hp x) by apply list_elem_of_here.
  f_equal. apply IH. intros y Hy. apply Hp. now apply list_elem_of_further.
Qed.

Lemma findIndex_lower_bound {A} (p : A -> bool) (l : list A) :
  -1 <= findIndex p l.
Proof.
  induction l as [|x l IH]; simpl; [lia|].
  destruct (p x); [lia|].
  destruct (Z.eqb_spec (findIndex p l) (-1)); lia.
Qed.

Lemma findIndex_absent {A} (p : A -> bool) (l : list A) :
  (forall x, x ∈ l -> p x = false) -> findIndex p l = -1.
Proof.
  induction l as [|x l IH]; intros Hp; [reflexivity|].
  simpl. rewrite (Hp x) by apply list_elem_of_here.
  rewrite IH; [reflexivity|].
  intros y Hy. apply Hp. now apply list_elem_of_further.
Qed.

Lemma findIndex_first {A} (p : A -> bool) (l : list A) (i : nat) (x : A) :
  l !! i = Some x -> p x = true ->
  (forall j y, (j < i)%nat -> l !! j = Some y -> p y = false) ->
  findIndex p l = Z.of_nat i.
Proof.
  revert i. induction l as [|a l IH]; intros i Hi Hx Hbefore; [discriminate|].
  destruct i as [|i]; simpl in *.
  - injection Hi as ->. now rewrite Hx.
  - rewrite (Hbefore O a) by (reflexivity || lia).
    rewrite (IH i Hi Hx).
    + destruct (Z.eqb_spec (Z.of_nat i) (-1)); lia.
    + intros j y Hj Hy. apply (Hbefore (S j) y); [lia|exact Hy].
Qed.

Lemma splice1_delete {A} (l : list A) (i : nat) :
  splice1 (Z.of_nat i) l = delete i l.
Proof.
  unfold splice1. rewrite Nat2Z.id. symmetry. apply delete_take_drop.
Qed.

Lemma array_get_nat {A} (l : list A) (i : nat) :
  array_get l (Z.of_nat i) = l !! i.
Proof.
  unfold array_get. destruct (Z.ltb_spec (Z.of_nat i) 0); [lia|].
  now rewrite Nat2Z.id.
Qed.

Lemma array_get_pred {A} (l : list A) (i : nat) :
  array_get l (Z.of_nat i - 1) =
  match i with O => None | S j => l !! j end.
Proof.
  destruct i as [|j].
  - reflexivity.
  - replace (Z.of_nat (S j) - 1) with (Z.of_nat j) by lia. apply array_get_nat.
Qed.

Lemma string_falsy_Some (i : string) :
  i <> EmptyString -> string_falsy (Some i) = false.
Proof. destruct i; [congruence|reflexivity]. Qed.

Lemma id_is_true (i : string) (n : Note) : id_is (Some i) n = true <-> id n = i.
Proof. apply String.eqb_eq. Qed.

Lemma id_is_false (i : string) (n : Note) : id_is (Some i) n = false <-> id n <> i.
Proof. apply String.eqb_neq. Qed.

(** *** Note store *)

(** C1 (as amended).  [createNote] builds a note titled "Untitled" with
    empty content, [pinned = false], [color = null] and both timestamps
    equal to the current time; it puts the note at the front of the
    collection, makes its id the selection, and passes the new collection
    to [saveNotes], which in the browser stores its JSON text under the
    storage key with one [setItem] call. *)
Theorem createNote_spec (ts : Z) (uuid : string) (s : State) :
  let s' := createNote ts uuid s in
  exists note,
    notes s' = note :: notes s /\
    id note = uuid /\
    title note = "Untitled" /\
    content note = EmptyString /\
    pinned note = Some false /\
    color note = Some Null /\
    createdAt note = ts /\
    updatedAt note = ts /\
    createdAt note = updatedAt note /\
    selectedId s' = Some (id note) /\
    localStorage s' = saveNotes (notes s') (localStorage s) /\
    if browser
    then getItem STORAGE_KEY (localStorage s')
           = Some (JSON_stringify (JArr (json_of_Note <$> notes s'))) /\
         setItem_calls (localStorage s') = S (setItem_calls (localStorage s))
    else localStorage s' = localStorage s.
Proof.
  simpl. eexists. repeat split.
  unfold saveNotes. destruct browser; simpl; [|reflexivity].
  split; [|reflexivity]. unfold getItem. simpl. apply lookup_insert_eq.
Qed.

(** C10.  With no selection ([selectedId] is [null]), [updateSelected],
    [deleteSelected], [setColor] and [togglePin] called without an id
    return the state they were given: same collection, same storage,
    no [setItem] call. *)
Theorem null_selection_noop (s : State) (partial : PartialNote)
    (c : nullable string) (now : Z) :
  selectedId s = None ->
  updateSelected partial now s = s /\
  deleteSelected s = s /\
  setColor c now s = s /\
  togglePin None now s = s.
Proof.
  intros Hsel.
  unfold updateSelected, deleteSelected,
    setColor, togglePin.
  rewrite Hsel. simpl. repeat split.
Qed.

(** C9.  When no note of the collection has the target id, [updateSelected],
    [deleteSelected] and [setColor] (target: the selection) and [togglePin]
    (target: its argument, or the selection when called without one) leave
    the collection and the selection as they were. *)
Theorem absent_target_noop (s : State) (target : string)
    (partial : PartialNote) (c : nullable string) (now : Z) :
  (forall n, n ∈ notes s -> id n <> target) ->
  (selectedId s = Some target ->
     (notes (updateSelected partial now s) = notes s /\
      selectedId (updateSelected partial now s) = selectedId s) /\
     (notes (deleteSelected s) = notes s /\
      selectedId (deleteSelected s) = selectedId s) /\
     (notes (setColor c now s) = notes s /\
      selectedId (setColor c now s) = selectedId s)) /\
  (forall arg, nullish arg (selectedId s) = Some target ->
     notes (togglePin arg now s) = notes s /\
     selectedId (togglePin arg now s) = selectedId s).
Proof.
  intros Habsent.
  assert (Hmiss : forall n, n ∈ notes s -> id_is (Some target) n = false).
  { intros n Hn. apply id_is_false. now apply Habsent. }
  split.
  - intros Hsel.
    unfold updateSelected, deleteSelected, setColor.
    rewrite Hsel, (findIndex_absent _ _ Hmiss).
    destruct (string_falsy (Some target)); cbn -[id_is];
      rewrite ?(fmap_unless_hit _ _ _ Hmiss); repeat split; exact Hsel.
  - intros arg Harg. unfold togglePin. rewrite Harg.
    destruct (string_falsy (Some target)); cbn -[id_is];
      rewrite ?(fmap_unless_hit _ _ _ Hmiss); repeat split.
Qed.

(** C2 (as amended).  When the selection is a non-empty id and the selected
    note (the first note with that id) is at index [i], [deleteSelected]
    removes exactly the element at index [i]; the selection becomes the id
    of the note at index [i] after the removal if there is one, otherwise
    the id of the note at index [i - 1] if there is one, otherwise [null]. *)
Theorem deleteSelected_reselects (s : State) (sel : string) (i : nat) (n : Note) :
  selectedId s = Some sel ->
  sel <> EmptyString ->
  notes s !! i = Some n ->
  id n = sel ->
  (forall j m, (j < i)%nat -> notes s !! j = Some m -> id m <> sel) ->
  let s' := deleteSelected s in
  notes s' = delete i (notes s) /\
  selectedId s' =
    match notes s' !! i with
    | Some next => Some (id next)
    | None =>
        match i with
        | O => None
        | S j => id <$> notes s' !! j
        end
    end.
Proof.
  intros Hsel Hne Hi Hid Hfirst s'. subst s'.
  unfold deleteSelected.
  rewrite Hsel, (string_falsy_Some _ Hne).
  rewrite (findIndex_first _ _ i n Hi).
  2: now apply id_is_true.
  2: { intros j m Hj Hm. apply id_is_false. eauto. }
  destruct (Z.eqb_spec (Z.of_nat i) (-1)) as [Hneg|_]; [lia|].
  simpl. rewrite splice1_delete, array_get_nat, array_get_pred.
  split; [reflexivity|].
  destruct (delete i (notes s) !! i); simpl; [reflexivity|].
  destruct i as [|j]; [reflexivity|].
  now destruct (delete (S j) (notes s) !! j).
Qed.

(** C6 (as amended).  When the selection is a non-empty id, [updateSelected]
    keeps the length of the collection and every note with another id; in
    each note with the selected id it leaves every property that [partial]
    does not supply as it was ([id] and [createdAt] among them) and sets
    [updatedAt] to the current time, which is no earlier than the previous
    [updatedAt] whenever the clock has not gone back behind it. *)
Theorem updateSelected_frame (s : State) (sel : string)
    (partial : PartialNote) (now : Z) :
  selectedId s = Some sel ->
  sel <> EmptyString ->
  let s' := updateSelected partial now s in
  length (notes s') = length (notes s) /\
  selectedId s' = selectedId s /\
  forall i n, notes s !! i = Some n ->
    (id n <> sel -> notes s' !! i = Some n) /\
    (id n = sel ->
       exists n', notes s' !! i = Some n' /\
         (p_id partial = None -> id n' = id n) /\
         (p_createdAt partial = None -> createdAt n' = createdAt n) /\
         (p_title partial = None -> title n' = title n) /\
         (p_content partial = None -> content n' = content n) /\
         (p_pinned partial = None -> pinned n' = pinned n) /\
         (p_color partial = None -> color n' = color n) /\
         updatedAt n' = now /\
         (updatedAt n <= now -> updatedAt n <= updatedAt n')).
Proof.
  intros Hsel Hne s'. subst s'.
  unfold updateSelected.
  rewrite Hsel, (string_falsy_Some _ Hne). simpl.
  split; [apply length_fmap|]. split; [congruence|].
  intros i n Hi. rewrite list_lookup_fmap, Hi. simpl.
  split.
  - intros Hid. apply String.eqb_neq in Hid. now rewrite Hid.
  - intros Hid. apply String.eqb_eq in Hid. rewrite Hid.
    eexists. split; [reflexivity|]. simpl.
    repeat split; try (intros ->; reflexivity).
Qed.

(** *** Selection *)

Lemma array_get_elem_of {A} (l : list A) (i : Z) (x : A) :
  array_get l i = Some x -> x ∈ l.
Proof.
  unfold array_get. destruct (i <? 0); [discriminate|].
  apply list_elem_of_lookup_2.
Qed.

Lemma fmap_keeps_id (p : Note -> bool) (f : Note -> Note) (l : list Note) (i : string) :
  (forall n, id (f n) = id n) ->
  (exists n, n ∈ l /\ id n = i) ->
  exists n, n ∈ ((fun n => if p n then f n else n) <$> l) /\ id n = i.
Proof.
  intros Hf (n & Hn & Hi).
  exists (if p n then f n else n). split.
  - apply (list_elem_of_fmap_2 (fun n => if p n then f n else n)), Hn.
  - destruct (p n); [rewrite Hf|]; exact Hi.
Qed.

Lemma initial_state_valid (loaded : list Note) (ls : Storage) :
  selection_valid (initial_state loaded ls).
Proof.
  intros i. unfold initial_state. simpl.
  destruct loaded as [|n rest]; simpl; [discriminate|].
  intros [= <-]. exists n. split; [apply list_elem_of_here|reflexivity].
Qed.

Lemma step_keeps_selection_valid (op : Op) (s : State) :
  from_page op s = true -> selection_valid s -> selection_valid (step op s).
Proof.
  intros Hop Hs i.
  destruct op as [ts uuid|partial now| |arg now|c now|j]; simpl.
  - intros [= <-]. eexists. split; [apply list_elem_of_here|reflexivity].
  - unfold updateSelected. destruct (string_falsy (selectedId s)); [apply Hs|].
    simpl. intros Hi. apply fmap_keeps_id; [|now apply Hs].
    intros n. simpl in Hop. simpl. destruct (p_id partial); [discriminate|reflexivity].
  - unfold deleteSelected. destruct (string_falsy (selectedId s)); [apply Hs|].
    destruct (findIndex _ _ =? -1); [apply Hs|]. simpl.
    set (next := splice1 _ _).
    destruct (array_get next _) as [a|] eqn:Ha; simpl.
    { intros [= <-]. exists a. split; [|reflexivity]. eapply array_get_elem_of, Ha. }
    destruct (array_get next (_ - 1)) as [b|] eqn:Hb; simpl; [|discriminate].
    intros [= <-]. exists b. split; [|reflexivity]. eapply array_get_elem_of, Hb.
  - unfold togglePin. destruct (string_falsy _); [apply Hs|].
    simpl. intros Hi. apply fmap_keeps_id; [reflexivity|now apply Hs].
  - unfold setColor. destruct (string_falsy _); [apply Hs|].
    simpl. intros Hi. apply fmap_keeps_id; [reflexivity|now apply Hs].
  - intros [= <-]. simpl in Hop.
    apply existsb_exists in Hop as (n & Hn & Hid).
    exists n. split; [now apply list_elem_of_In|now apply id_is_true].
Qed.

(** C3 (as amended).  In every state reached from the initial loaded state
    by create, update, delete, togglePin, setColor and select, where every
    select is given the id of a note then in the collection and no update
    supplies an [id], a non-null selection is the id of some note of the
    collection. *)
Theorem selection_never_dangles (loaded : list Note) (ls : Storage)
    (ops : list Op) :
  run_from_page ops (initial_state loaded ls) = true ->
  selection_valid (run ops (initial_state loaded ls)).
Proof.
  generalize (initial_state_valid loaded ls).
  generalize (initial_state loaded ls) as s.
  induction ops as [|op ops IH]; intros s Hs Hrun; [exact Hs|].
  simpl in Hrun. apply andb_true_iff in Hrun as [Hop Hrest].
  apply (IH (step op s)); [|exact Hrest].
  now apply step_keeps_selection_valid.
Qed.

(** *** Storage *)

(** C7.  [loadNotes] always completes normally.  It returns the empty array
    when the storage item is absent, when [JSON.parse] throws on it, and
    when it parses to a value that is not an array; and when the loaded
    array is empty the page starts with an empty collection and a [null]
    selection. *)
Theorem loadNotes_tolerant (ls : Storage) :
  (exists elems, loadNotes ls = Normal elems) /\
  (getItem STORAGE_KEY ls = None -> loadNotes ls = Normal []) /\
  (forall raw e,
     getItem STORAGE_KEY ls = Some raw -> JSON_parse raw = Throw e ->
     loadNotes ls = Normal []) /\
  (forall raw v,
     getItem STORAGE_KEY ls = Some raw -> JSON_parse raw = Normal v ->
     (forall elems, v <> JArr elems) ->
     loadNotes ls = Normal []) /\
  (loadNotes ls = Normal [] ->
     exists s0, boot ls = Some s0 /\ notes s0 = [] /\ selectedId s0 = None).
Proof.
  assert (Hnormal : exists elems, loadNotes ls = Normal elems).
  { unfold loadNotes. destruct browser; simpl; [|eauto].
    destruct (getItem STORAGE_KEY ls) as [[|a raw]|]; simpl; eauto.
    destruct (JSON_parse (String a raw)); simpl; eauto. }
  split; [exact Hnormal|]. split; [|split; [|split]].
  - intros Hraw. unfold loadNotes. rewrite Hraw. now destruct browser.
  - intros raw e Hraw Hparse. unfold loadNotes. rewrite Hraw.
    destruct browser; simpl; [|reflexivity].
    destruct raw as [|a raw]; simpl; [reflexivity|]. now rewrite Hparse.
  - intros raw v Hraw Hparse Hnot. unfold loadNotes. rewrite Hraw.
    destruct browser; simpl; [|reflexivity].
    destruct raw as [|a raw]; simpl; [reflexivity|]. rewrite Hparse. simpl.
    destruct v; try reflexivity. now destruct (Hnot elems).
  - intros Hload. unfold boot, loadNotes_typed. rewrite Hload. simpl. eauto.
Qed.

Lemma Note_of_json_of_Note (n : Note) : Note_of_json (json_of_Note n) = Some n.
Proof. destruct n as [i t c ca ua [[|]|] [[|col]|]]; reflexivity. Qed.

Lemma as_Notes_json (ns : list Note) : as_Notes (json_of_Note <$> ns) = Some ns.
Proof. apply mapM_fmap_Some, Note_of_json_of_Note. Qed.

Lemma saveNotes_stores (ns : list Note) (ls : Storage) :
  browser = true ->
  getItem STORAGE_KEY (saveNotes ns ls)
    = Some (JSON_stringify (JArr (json_of_Note <$> ns))) /\
  setItem_calls (saveNotes ns ls) = S (setItem_calls ls).
Proof.
  intros Hb. unfold saveNotes, getItem. rewrite Hb. simpl.
  split; [apply lookup_insert_eq|reflexivity].
Qed.

Lemma step_writes_or_keeps (op : Op) (s : State) :
  browser = true ->
  (notes (step op s) = notes s /\ localStorage (step op s) = localStorage s) \/
  (stored (step op s) /\
   setItem_calls (localStorage (step op s)) = S (setItem_calls (localStorage s))).
Proof.
  intros Hb. unfold stored.
  destruct op as [ts uuid|partial now| |arg now|c now|j]; simpl.
  - right. apply saveNotes_stores, Hb.
  - unfold updateSelected. destruct (string_falsy _); [now left|].
    right. apply saveNotes_stores, Hb.
  - unfold deleteSelected. destruct (string_falsy _); [now left|].
    destruct (_ =? -1); [now left|].
    right. apply saveNotes_stores, Hb.
  - unfold togglePin. destruct (string_falsy _); [now left|].
    right. apply saveNotes_stores, Hb.
  - unfold setColor. destruct (string_falsy _); [now left|].
    right. apply saveNotes_stores, Hb.
  - now left.
Qed.

Lemma run_stored (ops : list Op) (s : State) :
  browser = true ->
  (setItem_calls (localStorage s) <= setItem_calls (localStorage (run ops s)))%nat /\
  (stored s \/
   (setItem_calls (localStorage s) < setItem_calls (localStorage (run ops s)))%nat ->
   stored (run ops s)).
Proof.
  intros Hb. revert s.
  induction ops as [|op ops IH]; intros s; simpl.
  - split; [lia|]. intros [H|H]; [exact H|lia].
  - destruct (IH (step op s)) as [Hle Hst].
    destruct (step_writes_or_keeps op s Hb) as [[Hn Hl]|[Hs Hc]].
    + rewrite Hl in Hle, Hst. split; [exact Hle|].
      intros [H|H]; apply Hst; [left|now right].
      unfold stored in *. now rewrite Hn, Hl.
    + split; [lia|]. intros _. apply Hst. now left.
Qed.

Lemma loadNotes_stored (s : State) :
  browser = true ->
  stored s ->
  JSON_parse (JSON_stringify (JArr (json_of_Note <$> notes s)))
    = Normal (JArr (json_of_Note <$> notes s)) ->
  JSON_stringify (JArr (json_of_Note <$> notes s)) <> EmptyString ->
  loadNotes (localStorage s) = Normal (json_of_Note <$> notes s).
Proof.
  intros Hb Hst Hparse Hne. unfold loadNotes.
  rewrite Hb, Hst, (string_falsy_Some _ Hne). simpl.
  rewrite Hparse. reflexivity.
Qed.

(** The reactive save that follows an assignment to [notes] leaves the state
    stored, and rewrites the same text when the operation has saved already. *)
Lemma reactive_persist_stored (s : State) :
  browser = true ->
  stored (reactive_persist s) /\
  notes (reactive_persist s) = notes s /\
  (stored s ->
   getItem STORAGE_KEY (localStorage (reactive_persist s))
   = getItem STORAGE_KEY (localStorage s)).
Proof.
  intros Hb. unfold reactive_persist, stored. rewrite Hb. simpl.
  destruct (saveNotes_stores (notes s) (localStorage s) Hb) as [Hitem _].
  repeat split; [exact Hitem|]. intros Hs. now rewrite Hitem, Hs.
Qed.

(** C8.  In the browser, after any sequence of operations of which at least
    one wrote to storage, and provided the host's [JSON.parse] reads back
    what its [JSON.stringify] produced for the collection in memory (a
    non-empty text), [loadNotes] applied to the storage returns the array of
    the notes in memory, and read at type [Note[]] it is that collection. *)
Theorem load_after_save (ops : list Op) (s0 : State) :
  browser = true ->
  (setItem_calls (localStorage s0)
   < setItem_calls (localStorage (run ops s0)))%nat ->
  JSON_parse (JSON_stringify (JArr (json_of_Note <$> notes (run ops s0))))
    = Normal (JArr (json_of_Note <$> notes (run ops s0))) ->
  JSON_stringify (JArr (json_of_Note <$> notes (run ops s0))) <> EmptyString ->
  loadNotes (localStorage (run ops s0))
    = Normal (json_of_Note <$> notes (run ops s0)) /\
  loadNotes_typed (localStorage (run ops s0)) = Some (notes (run ops s0)).
Proof.
  intros Hb Hwrote Hparse Hne.
  assert (Hload : loadNotes (localStorage (run ops s0))
                  = Normal (json_of_Note <$> notes (run ops s0))).
  { apply loadNotes_stored; try assumption.
    apply (run_stored ops s0 Hb). now right. }
  split; [exact Hload|].
  unfold loadNotes_typed. rewrite Hload. apply as_Notes_json.
Qed.

(** *** Strings *)

Lemma list_ascii_of_string_app (a b : string) :
  list_ascii_of_string (a +:+ b) = list_ascii_of_string a ++ list_ascii_of_string b.
Proof. induction a as [|c a IH]; [reflexivity|]. cbn. now rewrite <- IH. Qed.

Lemma substring_of_chars (w t : string) :
  substring_of w t <-> infix_of (list_ascii_of_string w) (list_ascii_of_string t).
Proof.
  split.
  - intros (pre & post & ->).
    exists (list_ascii_of_string pre), (list_ascii_of_string post).
    now rewrite !list_ascii_of_string_app.
  - intros (pre & post & Ht).
    exists (string_of_list_ascii pre), (string_of_list_ascii post).
    rewrite <- (string_of_list_ascii_of_string t).
    rewrite <- (string_of_list_ascii_of_string
                  (string_of_list_ascii pre +:+ w +:+ string_of_list_ascii post)).
    f_equal.
    now rewrite !list_ascii_of_string_app, !list_ascii_of_string_of_list_ascii.
Qed.

Lemma startsWith_chars_spec (s q : list ascii) :
  startsWith_chars s q = true <-> exists post, s = q ++ post.
Proof.
  revert s. induction q as [|b q IH]; intros s; simpl.
  - split; eauto.
  - destruct s as [|a s].
    + split; [discriminate|]. intros (post & Hpost). discriminate.
    + destruct (Ascii.eqb_spec a b) as [->|Hab].
      * rewrite IH. split; intros (post & Hpost); exists post; congruence.
      * split; [discriminate|]. intros (post & Hpost). congruence.
Qed.

Lemma includes_chars_spec (s q : list ascii) :
  includes_chars s q = true <-> infix_of q s.
Proof.
  induction s as [|a s IH]; simpl; rewrite orb_true_iff, startsWith_chars_spec.
  - split.
    + intros [(post & Hq)|Hf]; [|discriminate]. now exists [], post.
    + intros (pre & post & Hq). left.
      destruct pre; [|discriminate]. now exists post.
  - rewrite IH. split.
    + intros [(post & Hq)|(pre & post & Hq)].
      * now exists [], post.
      * exists (a :: pre), post. simpl. now rewrite Hq.
    + intros (pre & post & Hq). destruct pre as [|c pre]; simpl in Hq.
      * left. now exists post.
      * right. exists pre, post. congruence.
Qed.

Lemma includes_spec (s q : string) :
  includes s q = true <-> substring_of q s.
Proof. unfold includes. now rewrite includes_chars_spec, substring_of_chars. Qed.

Lemma infix_of_rev (w t : list ascii) : infix_of w t -> infix_of (rev w) (rev t).
Proof.
  intros (pre & post & ->). exists (rev post), (rev pre).
  now rewrite !rev_app_distr, <- app_assoc.
Qed.

Lemma trimStart_chars_split (s : list ascii) :
  exists ws, s = ws ++ trimStart_chars s.
Proof.
  induction s as [|c s (ws & IH)]; simpl.
  - now exists [].
  - destruct (isWhiteSpace c).
    + exists (c :: ws). simpl. now rewrite <- IH.
    + now exists [].
Qed.

Lemma trimStart_chars_head (s : list ascii) (c : ascii) (rest : list ascii) :
  trimStart_chars s = c :: rest -> isWhiteSpace c = false.
Proof.
  induction s as [|d s IH]; simpl; [discriminate|].
  destruct (isWhiteSpace d) eqn:Hd; [exact IH|]. congruence.
Qed.

Lemma trimEnd_chars_split (s : list ascii) :
  exists ws, s = trimEnd_chars s ++ ws.
Proof.
  unfold trimEnd_chars.
  destruct (trimStart_chars_split (rev s)) as (ws & Hws).
  exists (rev ws). rewrite <- rev_app_distr, <- Hws. now rewrite rev_involutive.
Qed.

Lemma infix_of_trimStart (w t : list ascii) (c : ascii) (rest : list ascii) :
  w = c :: rest -> isWhiteSpace c = false ->
  infix_of w t -> infix_of w (trimStart_chars t).
Proof.
  intros -> Hc. induction t as [|d t IH]; intros (pre & post & Ht).
  - destruct pre; discriminate.
  - simpl. destruct (isWhiteSpace d) eqn:Hd; [|now exists pre, post].
    apply IH. destruct pre as [|e pre]; simpl in Ht.
    + injection Ht as Hdc _. congruence.
    + injection Ht as _ Ht. now exists pre, post.
Qed.

Lemma infix_of_trimEnd (w t : list ascii) (c : ascii) (init : list ascii) :
  w = init ++ [c] -> isWhiteSpace c = false ->
  infix_of w t -> infix_of w (trimEnd_chars t).
Proof.
  intros Hw Hc Hin. unfold trimEnd_chars.
  rewrite <- (rev_involutive w). apply infix_of_rev.
  apply (infix_of_trimStart _ _ c (rev init)); [|exact Hc|now apply infix_of_rev].
  now rewrite Hw, rev_app_distr.
Qed.

Lemma infix_of_trim_back (w t : list ascii) :
  infix_of w (trim_chars t) -> infix_of w t.
Proof.
  unfold trim_chars. intros (pre & post & Hw).
  destruct (trimStart_chars_split t) as (ws1 & H1).
  destruct (trimEnd_chars_split (trimStart_chars t)) as (ws2 & H2).
  exists (ws1 ++ pre), (post ++ ws2).
  rewrite H1 at 1. rewrite H2, Hw. now rewrite <- !app_assoc.
Qed.

(** A trimmed string is empty, or begins and ends with a character that is
    not white space. *)
Lemma trim_chars_ends (x : list ascii) :
  trim_chars x = [] \/
  exists c rest d init,
    trim_chars x = c :: rest /\ isWhiteSpace c = false /\
    trim_chars x = init ++ [d] /\ isWhiteSpace d = false.
Proof.
  unfold trim_chars.
  set (y := trimStart_chars x).
  destruct (trimEnd_chars y) as [|c rest] eqn:Hend; [now left|right].
  assert (Hlast : exists d init, c :: rest = init ++ [d] /\ isWhiteSpace d = false).
  { unfold trimEnd_chars in Hend.
    destruct (trimStart_chars (rev y)) as [|d r] eqn:Hr; [discriminate|].
    exists d, (rev r). split; [now rewrite <- Hend|].
    now apply trimStart_chars_head in Hr. }
  destruct Hlast as (d & init & Hd & Hws).
  exists c, rest, d, init. repeat split; try assumption.
  destruct (trimEnd_chars_split y) as (ws & Hy). rewrite Hend in Hy.
  apply (trimStart_chars_head x c (rest ++ ws)). exact Hy.
Qed.

Lemma infix_of_trim (x t : list ascii) :
  infix_of (trim_chars x) (trim_chars t) <-> infix_of (trim_chars x) t.
Proof.
  split; [apply infix_of_trim_back|].
  destruct (trim_chars_ends x) as [Hnil|(c & rest & d & init & Hc & Hcw & Hd & Hdw)].
  - intros _. rewrite Hnil. now exists [], (trim_chars t).
  - intros Hin. unfold trim_chars at 2.
    apply (infix_of_trimEnd _ _ d init Hd Hdw).
    apply (infix_of_trimStart _ _ c rest Hc Hcw). exact Hin.
Qed.

Lemma includes_trim (t q : string) :
  includes (trim t) (trim q) = true <-> substring_of (trim q) t.
Proof.
  rewrite includes_spec, !substring_of_chars. unfold trim.
  rewrite !list_ascii_of_string_of_list_ascii. apply infix_of_trim.
Qed.

(** *** Filtering *)

Lemma sort_insert_elem_of {A} (cmp : A -> A -> number) (x y : A) (l : list A) :
  y ∈ sort_insert cmp x l <-> y = x \/ y ∈ l.
Proof.
  induction l as [|z l IH]; simpl.
  - rewrite list_elem_of_singleton. split; [auto|].
    intros [H|H]; [exact H|]. now apply not_elem_of_nil in H.
  - destruct (sort_compare cmp x z <=? 0).
    + apply elem_of_cons.
    + rewrite !elem_of_cons, IH. tauto.
Qed.

Lemma Array_sort_elem_of {A} (cmp : A -> A -> number) (y : A) (l : list A) :
  y ∈ Array_sort cmp l <-> y ∈ l.
Proof.
  induction l as [|x l IH]; simpl; [reflexivity|].
  now rewrite sort_insert_elem_of, elem_of_cons, IH.
Qed.

Lemma boolean_truthy_true (b : option bool) :
  boolean_truthy b = true <-> b = Some true.
Proof. destruct b as [[|]|]; simpl; split; congruence. Qed.

(** C5.  A note matches a query exactly when the query is empty or the
    lower-cased, trimmed query is a substring of the lower-cased title or of
    the lower-cased content; and the derived view holds exactly the notes of
    the collection that match the query and, when the pinned-only toggle is
    on, have [pinned = true]. *)
Theorem matches_spec (n : Note) (q : string) (s : State) :
  (matches n q = true <->
     q = EmptyString \/
     substring_of (trim (toLowerCase q)) (toLowerCase (title n)) \/
     substring_of (trim (toLowerCase q)) (toLowerCase (content n))) /\
  (n ∈ filtered s <->
     n ∈ notes s /\ matches n (query s) = true /\
     (showPinnedOnly s = true -> pinned n = Some true)).
Proof.
  split.
  - unfold matches, normalize.
    destruct (String.eqb_spec q EmptyString) as [->|Hq].
    + split; auto.
    + rewrite orb_true_iff, !includes_trim. split; [auto|].
      intros [H|H]; [contradiction|exact H].
  - unfold filtered, sorted, keep.
    rewrite Array_sort_elem_of, list_elem_of_In, filter_In, <- list_elem_of_In.
    rewrite andb_true_iff, orb_true_iff, boolean_truthy_true.
    destruct (showPinnedOnly s); simpl; split.
    + intros (Hn & Hm & [Hf|Hp]); [discriminate|]. auto.
    + intros (Hn & Hm & Hp). auto.
    + intros (Hn & Hm & _). repeat split; auto. discriminate.
    + intros (Hn & Hm & _). auto.
Qed.

(** *** Sorting *)

Lemma compare_unpinned_pinned (mode : SortMode) (a b : Note) :
  pinned a = Some false -> pinned b = Some true ->
  sort_compare (compare_notes mode) a b = 1.
Proof.
  intros Ha Hb. unfold sort_compare, compare_notes, by_pinned.
  rewrite Ha, Hb. now destruct mode.
Qed.

Lemma compare_pinned_unpinned (mode : SortMode) (a b : Note) :
  pinned a = Some true -> pinned b = Some false ->
  sort_compare (compare_notes mode) a b = -1.
Proof.
  intros Ha Hb. unfold sort_compare, compare_notes, by_pinned.
  rewrite Ha, Hb. now destruct mode.
Qed.

Lemma flagged_cases (n : Note) :
  pinned n <> None -> pinned n = Some true \/ pinned n = Some false.
Proof. destruct (pinned n) as [[|]|]; auto. congruence. Qed.

Lemma sort_insert_pin_ordered (mode : SortMode) (x : Note) (l : list Note) :
  pinned x <> None ->
  Forall (fun n => pinned n <> None) l ->
  StronglySorted pin_ordered l ->
  StronglySorted pin_ordered (sort_insert (compare_notes mode) x l).
Proof.
  intros Hx Hflag Hsorted.
  induction l as [|y l IH]; simpl.
  - repeat constructor.
  - apply Forall_cons in Hflag as [Hy Hflag].
    apply StronglySorted_inv in Hsorted as [Hsorted Hyl].
    destruct (Z.leb_spec (sort_compare (compare_notes mode) x y) 0) as [Hle|Hgt].
    + assert (Hxy : pin_ordered x y).
      { intros [Hxf Hyt]. rewrite (compare_unpinned_pinned mode x y Hxf Hyt) in Hle. lia. }
      constructor; [now constructor|].
      constructor; [exact Hxy|].
      rewrite List.Forall_forall in Hyl |- *. intros z Hz [Hxf Hzt].
      destruct (flagged_cases y Hy) as [Hyt|Hyf].
      * apply Hxy. now split.
      * apply (Hyl z Hz). now split.
    + constructor; [now apply IH|].
      rewrite List.Forall_forall in Hyl |- *. intros z Hz.
      apply list_elem_of_In, sort_insert_elem_of in Hz as [->|Hz].
      * intros [Hyf Hxt].
        rewrite (compare_pinned_unpinned mode x y Hxt Hyf) in Hgt. lia.
      * apply Hyl. now apply list_elem_of_In.
Qed.

Lemma sorted_pin_ordered (mode : SortMode) (l : list Note) :
  Forall (fun n => pinned n <> None) l ->
  StronglySorted pin_ordered (sorted mode l).
Proof.
  unfold sorted. induction l as [|x l IH]; intros Hflag; simpl; [constructor|].
  apply Forall_cons in Hflag as [Hx Hflag].
  apply sort_insert_pin_ordered; [exact Hx| |now apply IH].
  rewrite List.Forall_forall in Hflag |- *. intros z Hz.
  apply Hflag. now apply list_elem_of_In, Array_sort_elem_of, list_elem_of_In in Hz.
Qed.

Lemma StronglySorted_precedes {A} (R : A -> A -> Prop) (a b : A) (l : list A) :
  StronglySorted R l -> precedes a b l -> R a b.
Proof.
  intros Hsorted (l1 & l2 & l3 & ->).
  induction l1 as [|c l1 IH]; simpl in Hsorted;
    apply StronglySorted_inv in Hsorted as [Hrest Hhead].
  - rewrite List.Forall_forall in Hhead. apply Hhead.
    apply in_or_app. right. now left.
  - now apply IH.
Qed.

(** Pin-first ordering, for collections in which every note carries a
    [pinned] flag: in every mode no unpinned note precedes a pinned one. *)
Lemma sorted_pinned_first (mode : SortMode) (l : list Note) (a b : Note) :
  Forall (fun n => pinned n <> None) l ->
  precedes a b (sorted mode l) ->
  ~ (pinned a = Some false /\ pinned b = Some true).
Proof.
  intros Hflag Hpre.
  apply (StronglySorted_precedes pin_ordered a b (sorted mode l)); [|exact Hpre].
  now apply sorted_pin_ordered.
Qed.

(** C4, the code at the failing input.  For a collection holding a note
    stored without a [pinned] property the comparator yields [NaN] on that
    note and falls through to the timestamps: in mode [updated] the
    collection plain (unpinned, 100), legacy (no flag, 75), starred (pinned,
    50) is returned in that order, so an unpinned note precedes a pinned
    one; and legacy (no flag, 75) alone is placed before starred (pinned,
    50). *)
Theorem sorted_unflagged_breaks_pin_first :
  sorted updated [Sample.plain; Sample.legacy; Sample.starred]
    = [Sample.plain; Sample.legacy; Sample.starred] /\
  precedes Sample.plain Sample.starred
    (sorted updated [Sample.plain; Sample.legacy; Sample.starred]) /\
  pinned Sample.plain = Some false /\
  pinned Sample.starred = Some true /\
  sorted updated [Sample.legacy; Sample.starred] = [Sample.legacy; Sample.starred].
Proof.
  repeat split.
  exists [], [Sample.legacy], []. reflexivity.
Qed.

(** *** Sorting: permutation, order, stability *)

Lemma sort_insert_perm {A} (cmp : A -> A -> number) (x : A) (l : list A) :
  Permutation (sort_insert cmp x l) (x :: l).
Proof.
  induction l as [|y l IH]; simpl; [reflexivity|].
  destruct (sort_compare cmp x y <=? 0); [reflexivity|].
  rewrite IH. apply perm_swap.
Qed.

Lemma Array_sort_perm {A} (cmp : A -> A -> number) (l : list A) :
  Permutation (Array_sort cmp l) l.
Proof.
  induction l as [|x l IH]; simpl; [reflexivity|].
  rewrite sort_insert_perm. now apply perm_skip.
Qed.

(** X1.  Whatever the mode and the notes, the sorted list is a rearrangement
    of its input: no note is lost, added or repeated. *)
Theorem sorted_permutation (mode : SortMode) (l : list Note) :
  Permutation (sorted mode l) l /\ length (sorted mode l) = length l.
Proof.
  assert (Hperm : Permutation (sorted mode l) l) by apply Array_sort_perm.
  split; [exact Hperm|]. now apply Permutation_length.
Qed.

Lemma sort_insert_split {A} (cmp : A -> A -> number) (x : A) (l : list A) :
  exists front back,
    l = front ++ back /\
    sort_insert cmp x l = front ++ x :: back /\
    Forall (fun y => 0 < sort_compare cmp x y) front.
Proof.
  induction l as [|y l (front & back & Hl & Hins & Hfront)]; simpl.
  - exists [], []. repeat split. constructor.
  - destruct (Z.leb_spec (sort_compare cmp x y) 0) as [Hle|Hgt].
    + exists [], (y :: l). repeat split. constructor.
    + exists (y :: front), back. simpl. rewrite Hl at 1. rewrite Hins.
      repeat split. now constructor.
Qed.

Lemma precedes_lookup {A} (a b : A) (l : list A) :
  precedes a b l <->
  exists i j, (i < j)%nat /\ l !! i = Some a /\ l !! j = Some b.
Proof.
  split.
  - intros (l1 & l2 & l3 & ->).
    exists (length l1), (length l1 + S (length l2))%nat. split; [lia|]. split.
    + now rewrite list_lookup_middle.
    + rewrite lookup_app_r by lia.
      replace (length l1 + S (length l2) - length l1)%nat
        with (S (length l2)) by lia.
      simpl. now rewrite list_lookup_middle.
  - intros (i & j & Hij & Hi & Hj).
    assert (Hb : drop (S i) l !! (j - S i)%nat = Some b).
    { rewrite lookup_drop. now replace (S i + (j - S i))%nat with j by lia. }
    exists (take i l), (take (j - S i) (drop (S i) l)),
      (drop (S (j - S i)) (drop (S i) l)).
    rewrite (take_drop_middle _ _ _ Hb). now rewrite (take_drop_middle _ _ _ Hi).
Qed.

Lemma precedes_insert {A} (a b x : A) (front back : list A) :
  precedes a b (front ++ back) -> precedes a b (front ++ x :: back).
Proof.
  rewrite !precedes_lookup. intros (i & j & Hij & Hi & Hj).
  assert (Hshift : forall k y, (front ++ back) !! k = Some y ->
            (front ++ x :: back) !!
              (if decide (k < length front)%nat then k else S k) = Some y).
  { intros k y Hk. destruct (decide (k < length front)%nat) as [Hlt|Hge].
    - rewrite lookup_app_l in Hk |- * by exact Hlt. exact Hk.
    - rewrite lookup_app_r in Hk |- * by lia.
      replace (S k - length front)%nat with (S (k - length front)) by lia.
      exact Hk. }
  exists (if decide (i < length front)%nat then i else S i),
    (if decide (j < length front)%nat then j else S j).
  split; [|split; [apply Hshift, Hi|apply Hshift, Hj]].
  destruct (decide (i < length front)%nat), (decide (j < length front)%nat); lia.
Qed.

Lemma Array_sort_stable {A} (cmp : A -> A -> number) (a b : A) (l : list A) :
  precedes a b l -> sort_compare cmp a b <= 0 ->
  precedes a b (Array_sort cmp l).
Proof.
  intros Hpre Hle. induction l as [|x l IH].
  - destruct Hpre as (l1 & l2 & l3 & Hl). now destruct l1.
  - simpl.
    destruct (sort_insert_split cmp x (Array_sort cmp l))
      as (front & back & Hsplit & -> & Hfront).
    destruct Hpre as (l1 & l2 & l3 & Hl).
    destruct l1 as [|c l1]; simpl in Hl; injection Hl as -> ->.
    + assert (Hb : b ∈ front ++ back).
      { rewrite <- Hsplit. apply Array_sort_elem_of.
        apply elem_of_app. right. apply list_elem_of_here. }
      apply elem_of_app in Hb as [Hb|Hb].
      * rewrite List.Forall_forall in Hfront.
        apply list_elem_of_In, Hfront in Hb. lia.
      * apply list_elem_of_split in Hb as (b1 & b2 & ->).
        now exists front, b1, b2.
    + apply precedes_insert. rewrite <- Hsplit. apply IH.
      now exists l1, l2, l3.
Qed.

Lemma sort_insert_in_order {A} (cmp : A -> A -> number) (P : A -> Prop)
    (x : A) (l : list A) :
  (forall a b c, P a -> P b -> P c ->
     sort_compare cmp a b <= 0 -> sort_compare cmp b c <= 0 ->
     sort_compare cmp a c <= 0) ->
  (forall a b, P a -> P b -> 0 < sort_compare cmp a b -> sort_compare cmp b a <= 0) ->
  P x -> Forall P l ->
  StronglySorted (fun a b => sort_compare cmp a b <= 0) l ->
  StronglySorted (fun a b => sort_compare cmp a b <= 0) (sort_insert cmp x l).
Proof.
  intros Htrans Htotal Hx HP Hsorted.
  induction l as [|y l IH]; simpl.
  - repeat constructor.
  - apply Forall_cons in HP as [Hy HP].
    apply StronglySorted_inv in Hsorted as [Hsorted Hyl].
    rewrite List.Forall_forall in Hyl.
    destruct (Z.leb_spec (sort_compare cmp x y) 0) as [Hle|Hgt].
    + constructor; [now constructor; [|apply List.Forall_forall]|].
      constructor; [exact Hle|].
      apply List.Forall_forall. intros z Hz.
      apply (Htrans x y z); auto.
      rewrite Forall_forall in HP. now apply HP, list_elem_of_In.
    + constructor; [now apply IH|].
      apply List.Forall_forall. intros z Hz.
      apply list_elem_of_In, sort_insert_elem_of in Hz as [->|Hz].
      * now apply Htotal.
      * now apply Hyl, list_elem_of_In.
Qed.

Lemma Array_sort_in_order {A} (cmp : A -> A -> number) (P : A -> Prop)
    (l : list A) :
  (forall a b c, P a -> P b -> P c ->
     sort_compare cmp a b <= 0 -> sort_compare cmp b c <= 0 ->
     sort_compare cmp a c <= 0) ->
  (forall a b, P a -> P b -> 0 < sort_compare cmp a b -> sort_compare cmp b a <= 0) ->
  Forall P l ->
  StronglySorted (fun a b => sort_compare cmp a b <= 0) (Array_sort cmp l).
Proof.
  intros Htrans Htotal HP.
  induction l as [|x l IH]; simpl; [constructor|].
  apply Forall_cons in HP as [Hx HP].
  apply (sort_insert_in_order cmp P); auto.
  rewrite Forall_forall in HP |- *. intros z Hz.
  apply Array_sort_elem_of in Hz. now apply HP.
Qed.

Lemma Array_sort_of_sorted {A} (cmp : A -> A -> number) (l : list A) :
  StronglySorted (fun a b => sort_compare cmp a b <= 0) l ->
  Array_sort cmp l = l.
Proof.
  induction l as [|x l IH]; intros Hsorted; [reflexivity|].
  apply StronglySorted_inv in Hsorted as [Hsorted Hx].
  simpl. rewrite (IH Hsorted).
  destruct l as [|y l]; [reflexivity|]. simpl.
  apply Forall_cons in Hx as [Hxy _].
  destruct (Z.leb_spec (sort_compare cmp x y) 0); [reflexivity|lia].
Qed.

Lemma compare_notes_flagged (mode : SortMode) (a b : Note) (pa pb : bool) :
  pinned a = Some pa -> pinned b = Some pb ->
  sort_compare (compare_notes mode) a b
  = if Bool.eqb pa pb then secondary mode a b
    else if pa then -1 else 1.
Proof.
  intros Ha Hb. unfold sort_compare, compare_notes, by_pinned, secondary.
  rewrite Ha, Hb. destruct mode, pa, pb; reflexivity.
Qed.

Lemma flagged_Some (n : Note) : pinned n <> None -> exists p, pinned n = Some p.
Proof. destruct (pinned n) as [p|]; [eauto|congruence]. Qed.

Lemma compare_notes_trans (mode : SortMode) (a b c : Note) :
  (mode = alpha -> collator_consistent collator_compare) ->
  pinned a <> None -> pinned b <> None -> pinned c <> None ->
  sort_compare (compare_notes mode) a b <= 0 ->
  sort_compare (compare_notes mode) b c <= 0 ->
  sort_compare (compare_notes mode) a c <= 0.
Proof.
  intros Hcc Ha Hb Hc.
  destruct (flagged_Some a Ha) as (pa & Hpa).
  destruct (flagged_Some b Hb) as (pb & Hpb).
  destruct (flagged_Some c Hc) as (pc & Hpc).
  rewrite (compare_notes_flagged mode a b pa pb Hpa Hpb).
  rewrite (compare_notes_flagged mode b c pb pc Hpb Hpc).
  rewrite (compare_notes_flagged mode a c pa pc Hpa Hpc).
  destruct pa, pb, pc; simpl; try lia;
    (destruct mode; unfold secondary; [lia|lia|]);
    destruct (Hcc eq_refl) as [Htrans _]; apply Htrans.
Qed.

Lemma compare_notes_total (mode : SortMode) (a b : Note) :
  (mode = alpha -> collator_consistent collator_compare) ->
  pinned a <> None -> pinned b <> None ->
  0 < sort_compare (compare_notes mode) a b ->
  sort_compare (compare_notes mode) b a <= 0.
Proof.
  intros Hcc Ha Hb.
  destruct (flagged_Some a Ha) as (pa & Hpa).
  destruct (flagged_Some b Hb) as (pb & Hpb).
  rewrite (compare_notes_flagged mode a b pa pb Hpa Hpb).
  rewrite (compare_notes_flagged mode b a pb pa Hpb Hpa).
  destruct pa, pb; simpl; try lia;
    (destruct mode; unfold secondary; [lia|lia|]);
    destruct (Hcc eq_refl) as [_ Htotal]; apply Htotal.
Qed.

Lemma sorted_in_order (mode : SortMode) (l : list Note) :
  (mode = alpha -> collator_consistent collator_compare) ->
  Forall (fun n => pinned n <> None) l ->
  StronglySorted (fun a b => sort_compare (compare_notes mode) a b <= 0)
    (sorted mode l).
Proof.
  intros Hcc Hflag.
  apply (Array_sort_in_order _ (fun n => pinned n <> None)); [| |exact Hflag].
  - intros a b c. now apply compare_notes_trans.
  - intros a b. now apply compare_notes_total.
Qed.

(** X2.  When every note carries a pin flag (and, in mode [alpha], the
    collator orders strings), two notes of the sorted list with the same pin
    flag appear in the order of the mode: latest update first, latest
    creation first, or titles in collation order. *)
Theorem sorted_groups_ordered (mode : SortMode) (l : list Note) (a b : Note) :
  (mode = alpha -> collator_consistent collator_compare) ->
  Forall (fun n => pinned n <> None) l ->
  precedes a b (sorted mode l) ->
  pinned a = pinned b ->
  match mode with
  | updated => updatedAt b <= updatedAt a
  | created => createdAt b <= createdAt a
  | alpha => collator_compare (title a) (title b) <= 0
  end.
Proof.
  intros Hcc Hflag Hpre Hsame.
  pose proof (StronglySorted_precedes _ a b _
                (sorted_in_order mode l Hcc Hflag) Hpre) as Hle.
  cbv beta in Hle.
  assert (Ha : a ∈ l).
  { destruct Hpre as (l1 & l2 & l3 & Hl).
    apply (Array_sort_elem_of (compare_notes mode)). fold (sorted mode l).
    rewrite Hl. apply elem_of_app. right. apply list_elem_of_here. }
  rewrite Forall_forall in Hflag.
  destruct (flagged_Some a (Hflag a Ha)) as (pa & Hpa).
  rewrite (compare_notes_flagged mode a b pa pa Hpa) in Hle by congruence.
  rewrite Bool.eqb_reflx in Hle. unfold secondary in Hle.
  destruct mode; lia.
Qed.

(** X3.  Under the same conditions sorting is idempotent: sorting a list
    that is already sorted in the current mode returns it unchanged. *)
Theorem sorted_idempotent (mode : SortMode) (l : list Note) :
  (mode = alpha -> collator_consistent collator_compare) ->
  Forall (fun n => pinned n <> None) l ->
  sorted mode (sorted mode l) = sorted mode l.
Proof.
  intros Hcc Hflag. apply Array_sort_of_sorted. now apply sorted_in_order.
Qed.

(** X4.  Under the same conditions the sort is stable: a note that comes
    before another in the input, and that the comparator does not put after
    it, still comes before it in the sorted list.  In particular notes with
    equal keys keep their order. *)
Theorem sorted_stable (mode : SortMode) (l : list Note) (a b : Note) :
  (mode = alpha -> collator_consistent collator_compare) ->
  Forall (fun n => pinned n <> None) l ->
  precedes a b l ->
  sort_compare (compare_notes mode) a b <= 0 ->
  precedes a b (sorted mode l).
Proof.
  intros _ _ Hpre Hle. now apply Array_sort_stable.
Qed.

(** *** The derived view *)

Lemma filter_sublist_mono {A} (f g : A -> bool) (l : list A) :
  (forall x, f x = true -> g x = true) ->
  sublist (List.filter f l) (List.filter g l).
Proof.
  intros Hfg. induction l as [|x l IH]; simpl; [constructor|].
  destruct (f x) eqn:Hf.
  - rewrite (Hfg x Hf). now constructor.
  - destruct (g x); [now constructor|exact IH].
Qed.

Lemma filter_sublist {A} (f : A -> bool) (l : list A) :
  sublist (List.filter f l) l.
Proof.
  induction l as [|x l IH]; simpl; [constructor|].
  destruct (f x); now constructor.
Qed.

Lemma filter_all {A} (f : A -> bool) (l : list A) :
  (forall x, f x = true) -> List.filter f l = l.
Proof.
  intros Hf. induction l as [|x l IH]; simpl; [reflexivity|].
  now rewrite Hf, IH.
Qed.

Lemma includes_chars_nil (s : list ascii) : includes_chars s [] = true.
Proof. destruct s; reflexivity. Qed.

Lemma includes_refl (s : string) : includes s s = true.
Proof.
  unfold includes. apply includes_chars_spec.
  exists [], []. now rewrite app_nil_r.
Qed.

(** X5.  The derived view never shows a note that is not in the collection,
    nor shows a note more often than the collection holds it; so it is never
    longer than the collection. *)
Theorem filtered_within_notes (s : State) :
  filtered s ⊆+ notes s /\ (length (filtered s) <= length (notes s))%nat.
Proof.
  assert (Hsub : filtered s ⊆+ notes s).
  { unfold filtered, sorted. etrans.
    - apply Permutation_submseteq, Array_sort_perm.
    - apply sublist_submseteq, filter_sublist. }
  split; [exact Hsub|]. now apply submseteq_length.
Qed.

(** X6.  With an empty query and the pinned-only toggle off, the derived
    view is a rearrangement of the whole collection. *)
Theorem filtered_shows_all (s : State) :
  query s = EmptyString ->
  showPinnedOnly s = false ->
  Permutation (filtered s) (notes s).
Proof.
  intros Hq Hp. unfold filtered, sorted. rewrite Array_sort_perm.
  rewrite filter_all; [reflexivity|].
  intros n. unfold keep, matches. now rewrite Hq, Hp.
Qed.


(** X8.  Turning the pinned-only toggle on only removes notes from the
    derived view. *)
Theorem pinned_only_narrows (s : State) :
  filtered (set_showPinnedOnly true s) ⊆+ filtered (set_showPinnedOnly false s).
Proof.
  unfold filtered, sorted. simpl. etrans; [|etrans].
  - apply Permutation_submseteq, Array_sort_perm.
  - apply sublist_submseteq,
      (filter_sublist_mono (keep (query s) true) (keep (query s) false)).
    intros n. unfold keep. rewrite !andb_true_iff. intros [Hm _]. now split.
  - apply Permutation_submseteq. symmetry. apply Array_sort_perm.
Qed.

(** X9.  A query made only of white space (one whose normal form is empty)
    matches every note, like the empty query. *)
Theorem matches_blank_query (n : Note) (q : string) :
  normalize q = EmptyString -> matches n q = true.
Proof.
  intros Hq. unfold matches. destruct (String.eqb q EmptyString); [reflexivity|].
  rewrite Hq. unfold includes. simpl. now rewrite includes_chars_nil.
Qed.

(** X10.  Searching for a note's own title, or for its own content, finds
    that note. *)
Theorem matches_own_text (n : Note) :
  matches n (title n) = true /\ matches n (content n) = true.
Proof.
  unfold matches. split.
  - destruct (String.eqb (title n) EmptyString); [reflexivity|].
    now rewrite includes_refl.
  - destruct (String.eqb (content n) EmptyString); [reflexivity|].
    rewrite includes_refl. apply orb_true_r.
Qed.

(** *** More on the note store *)

Lemma findIndex_spec {A} (p : A -> bool) (l : list A) :
  (findIndex p l = -1 /\ forall x, x ∈ l -> p x = false) \/
  (exists i x, findIndex p l = Z.of_nat i /\ l !! i = Some x /\ p x = true).
Proof.
  induction l as [|a l IH]; simpl.
  - left. split; [reflexivity|]. intros x Hx. now apply not_elem_of_nil in Hx.
  - destruct (p a) eqn:Ha.
    + right. now exists O, a.
    + destruct IH as [[Hnone Hall]|(i & x & Hi & Hx & Hp)].
      * left. rewrite Hnone. split; [reflexivity|].
        intros x Hx. apply elem_of_cons in Hx as [->|Hx]; auto.
      * right. exists (S i), x. rewrite Hi.
        destruct (Z.eqb_spec (Z.of_nat i) (-1)); [lia|].
        repeat split; [lia|exact Hx|exact Hp].
Qed.

Lemma fmap_unless_hit_ids (p : Note -> bool) (f : Note -> Note) (l : list Note) :
  (forall n, id (f n) = id n) ->
  id <$> ((fun n => if p n then f n else n) <$> l) = id <$> l.
Proof.
  intros Hf. rewrite <- list_fmap_compose. apply list_fmap_ext.
  intros i n _. simpl. destruct (p n); [apply Hf|reflexivity].
Qed.

(** X11.  [togglePin] on a non-empty target id (its argument, or the
    selection when called without one) flips the pin of every note with that
    id, a missing flag counting as unpinned, and stamps it with the current
    time; it changes nothing else in those notes, no other note, and not the
    selection. *)
Theorem togglePin_frame (s : State) (arg : option string) (target : string)
    (now : Z) :
  nullish arg (selectedId s) = Some target ->
  target <> EmptyString ->
  selectedId (togglePin arg now s) = selectedId s /\
  length (notes (togglePin arg now s)) = length (notes s) /\
  forall i n, notes s !! i = Some n ->
    (id n <> target -> notes (togglePin arg now s) !! i = Some n) /\
    (id n = target ->
       exists n', notes (togglePin arg now s) !! i = Some n' /\
         pinned n' = Some (negb (boolean_truthy (pinned n))) /\
         updatedAt n' = now /\
         id n' = id n /\ title n' = title n /\ content n' = content n /\
         createdAt n' = createdAt n /\ color n' = color n).
Proof.
  intros Htarget Hne. unfold togglePin.
  rewrite Htarget, (string_falsy_Some _ Hne). cbn -[id_is].
  split; [reflexivity|]. split; [apply length_fmap|].
  intros i n Hi. rewrite list_lookup_fmap, Hi. cbn -[id_is]. split.
  - intros Hid. apply id_is_false in Hid. now rewrite Hid.
  - intros Hid. apply id_is_true in Hid. rewrite Hid.
    eexists. split; [reflexivity|]. repeat split.
Qed.

(** X12.  Toggling the pin twice on the same non-empty target gives every
    note its pin state back (a missing flag comes back as [false]) and
    leaves id, title, content, creation time and colour as they were. *)
Theorem togglePin_twice (s : State) (arg : option string) (target : string)
    (t1 t2 : Z) :
  nullish arg (selectedId s) = Some target ->
  target <> EmptyString ->
  forall i n, notes s !! i = Some n ->
    exists n'', notes (togglePin arg t2 (togglePin arg t1 s)) !! i = Some n'' /\
      boolean_truthy (pinned n'') = boolean_truthy (pinned n) /\
      id n'' = id n /\ title n'' = title n /\ content n'' = content n /\
      createdAt n'' = createdAt n /\ color n'' = color n.
Proof.
  intros Htarget Hne i n Hi.
  assert (Hstep : forall now s0, nullish arg (selectedId s0) = Some target ->
            notes (togglePin arg now s0)
            = (fun m => if id_is (Some target) m then spread_togglePin m now else m)
                <$> notes s0 /\
            selectedId (togglePin arg now s0) = selectedId s0).
  { intros now s0 H0. unfold togglePin.
    rewrite H0, (string_falsy_Some _ Hne). split; reflexivity. }
  destruct (Hstep t1 s Htarget) as [Hn1 Hs1].
  assert (Htarget' : nullish arg (selectedId (togglePin arg t1 s)) = Some target)
    by now rewrite Hs1.
  destruct (Hstep t2 _ Htarget') as [Hn2 _].
  rewrite Hn2, Hn1, !list_lookup_fmap, Hi. cbn -[id_is].
  destruct (id_is (Some target) n) eqn:Hhit.
  - replace (id_is (Some target) (spread_togglePin n t1)) with true
      by (symmetry; exact Hhit).
    eexists. split; [reflexivity|]. simpl.
    repeat split. now destruct (boolean_truthy (pinned n)).
  - rewrite Hhit. eexists. split; [reflexivity|]. repeat split.
Qed.

(** X13.  [setColor] with a non-empty selection gives every note with the
    selected id the chosen colour, so that its swatch shows that colour
    ("transparent" for [null]), and stamps it with the current time; it
    changes nothing else in those notes, no other note, and not the
    selection. *)
Theorem setColor_frame (s : State) (sel : string) (c : nullable string)
    (now : Z) :
  selectedId s = Some sel ->
  sel <> EmptyString ->
  selectedId (setColor c now s) = selectedId s /\
  length (notes (setColor c now s)) = length (notes s) /\
  forall i n, notes s !! i = Some n ->
    (id n <> sel -> notes (setColor c now s) !! i = Some n) /\
    (id n = sel ->
       exists n', notes (setColor c now s) !! i = Some n' /\
         color n' = Some c /\
         swatch n' = match c with Val x => x | Null => "transparent" end /\
         updatedAt n' = now /\
         id n' = id n /\ title n' = title n /\ content n' = content n /\
         createdAt n' = createdAt n /\ pinned n' = pinned n).
Proof.
  intros Hsel Hne. unfold setColor.
  rewrite Hsel, (string_falsy_Some _ Hne). cbn -[id_is].
  split; [exact Hsel|]. split; [apply length_fmap|].
  intros i n Hi. rewrite list_lookup_fmap, Hi. cbn -[id_is]. split.
  - intros Hid. apply id_is_false in Hid. now rewrite Hid.
  - intros Hid. apply id_is_true in Hid. rewrite Hid.
    eexists. split; [reflexivity|]. repeat split.
Qed.

(** X14.  Creating a note and deleting it at once gives the collection back
    as it was, and leaves its first note selected (or nothing, if it was
    empty), provided the new id is not the empty string. *)
Theorem createNote_then_delete (ts : Z) (uuid : string) (s : State) :
  uuid <> EmptyString ->
  notes (deleteSelected (createNote ts uuid s)) = notes s /\
  selectedId (deleteSelected (createNote ts uuid s)) = id <$> head (notes s).
Proof.
  intros Hne. destruct uuid as [|a u]; [congruence|].
  unfold deleteSelected, createNote. cbn -[String.eqb].
  rewrite String.eqb_refl. cbn.
  split; [reflexivity|]. now destruct (notes s).
Qed.

(** X15.  If the ids of the collection are pairwise distinct, they stay so
    through every sequence of operations in which each create brings an id
    not yet in the collection and no update supplies an id. *)
Theorem ids_stay_unique (ops : list Op) (s : State) :
  NoDup (id <$> notes s) ->
  run_from_page ops s = true ->
  run_fresh_ids ops s = true ->
  NoDup (id <$> notes (run ops s)).
Proof.
  revert s. induction ops as [|op ops IH]; intros s Hnd Hpage Hfresh; [exact Hnd|].
  simpl in Hpage, Hfresh |- *.
  apply andb_true_iff in Hpage as [Hop Hpage].
  apply andb_true_iff in Hfresh as [Hnew Hfresh].
  apply IH; try assumption. clear IH Hpage Hfresh.
  destruct op as [ts uuid|partial now| |arg now|c now|j]; simpl.
  - apply NoDup_cons. split; [|exact Hnd].
    simpl in Hnew. apply negb_true_iff in Hnew.
    intros Hin. apply list_elem_of_fmap in Hin as (n & Hid & Hn).
    assert (Hex : existsb (id_is (Some uuid)) (notes s) = true).
    { apply existsb_exists. exists n. split; [now apply list_elem_of_In|].
      now apply id_is_true. }
    congruence.
  - unfold updateSelected. destruct (string_falsy _); [exact Hnd|]. simpl.
    rewrite fmap_unless_hit_ids; [exact Hnd|].
    intros n. simpl in Hop |- *. now destruct (p_id partial).
  - unfold deleteSelected. destruct (string_falsy _); [exact Hnd|].
    destruct (findIndex_spec (id_is (selectedId s)) (notes s))
      as [[-> _]|(i & x & -> & _ & _)]; [exact Hnd|].
    destruct (Z.eqb_spec (Z.of_nat i) (-1)); [lia|]. simpl.
    rewrite splice1_delete, list_fmap_delete.
    exact (sublist_NoDup _ _ Hnd (sublist_delete _ _)).
  - unfold togglePin. destruct (string_falsy _); [exact Hnd|]. simpl.
    now rewrite fmap_unless_hit_ids.
  - unfold setColor. destruct (string_falsy _); [exact Hnd|]. simpl.
    now rewrite fmap_unless_hit_ids.
  - exact Hnd.
Qed.

(** X16.  If no note was updated before it was created, this stays true
    after an operation whose clock reading is not earlier than any creation
    time in the collection (and, for an update, that supplies no
    [createdAt]). *)
Theorem timestamps_stay_ordered (op : Op) (t : Z) (s : State) :
  Forall (fun n => createdAt n <= updatedAt n) (notes s) ->
  Forall (fun n => createdAt n <= t) (notes s) ->
  reads_clock t op = true ->
  Forall (fun n => createdAt n <= updatedAt n) (notes (step op s)).
Proof.
  intros Hord Hclock Hreads.
  assert (Hmap : forall (p : Note -> bool) (f : Note -> Note),
            (forall n, createdAt n <= t -> createdAt (f n) <= updatedAt (f n)) ->
            Forall (fun n => createdAt n <= updatedAt n)
              ((fun n => if p n then f n else n) <$> notes s)).
  { intros p f Hf. apply Forall_fmap.
    rewrite Forall_forall in Hord, Hclock |- *. intros n Hn. simpl.
    destruct (p n); [apply Hf, Hclock, Hn|apply Hord, Hn]. }
  destruct op as [ts uuid|partial now| |arg now|c now|j]; simpl in *.
  - constructor; [simpl; lia|exact Hord].
  - unfold updateSelected. destruct (string_falsy _); [exact Hord|]. simpl.
    apply andb_true_iff in Hreads as [Hnow Hp]. apply Z.eqb_eq in Hnow.
    apply Hmap. intros n Hn. simpl.
    destruct (p_createdAt partial); [discriminate|simpl; lia].
  - unfold deleteSelected. destruct (string_falsy _); [exact Hord|].
    destruct (findIndex_spec (id_is (selectedId s)) (notes s))
      as [[-> _]|(i & x & -> & _ & _)]; [exact Hord|].
    destruct (Z.eqb_spec (Z.of_nat i) (-1)) as [Hneg|_]; [lia|]. simpl.
    rewrite splice1_delete.
    rewrite Forall_forall in Hord |- *. intros n Hn.
    apply Hord. eapply list_elem_of_delete_inv, Hn.
  - unfold togglePin. destruct (string_falsy _); [exact Hord|]. simpl.
    apply Z.eqb_eq in Hreads. apply Hmap. intros n Hn. simpl. lia.
  - unfold setColor. destruct (string_falsy _); [exact Hord|]. simpl.
    apply Z.eqb_eq in Hreads. apply Hmap. intros n Hn. simpl. lia.
  - exact Hord.
Qed.

(** X17.  When the ids of the collection are pairwise distinct and the
    selection is the non-empty id of one of its notes, [deleteSelected]
    shortens the collection by exactly one note and leaves no note with the
    deleted id behind. *)
Theorem deleteSelected_removes_id (s : State) (sel : string) :
  NoDup (id <$> notes s) ->
  selectedId s = Some sel ->
  sel <> EmptyString ->
  (exists n, n ∈ notes s /\ id n = sel) ->
  S (length (notes (deleteSelected s))) = length (notes s) /\
  forall n, n ∈ notes (deleteSelected s) -> id n <> sel.
Proof.
  intros Hnd Hsel Hne (m & Hm & Hmid). unfold deleteSelected.
  rewrite Hsel, (string_falsy_Some _ Hne).
  destruct (findIndex_spec (id_is (Some sel)) (notes s))
    as [[_ Hall]|(i & x & -> & Hi & Hx)].
  { apply id_is_true in Hmid. rewrite (Hall m Hm) in Hmid. discriminate. }
  destruct (Z.eqb_spec (Z.of_nat i) (-1)) as [Hneg|_]; [lia|].
  cbn -[id_is]. rewrite splice1_delete. split.
  - rewrite length_delete by eauto. apply lookup_lt_Some in Hi. lia.
  - intros n Hn Hid. apply list_elem_of_lookup in Hn as (j & Hj).
    rewrite list_lookup_delete in Hj. apply id_is_true in Hx.
    assert (Hji : (if decide (j < i)%nat then j else S j) = i).
    { apply (NoDup_lookup (id <$> notes s) _ _ sel Hnd).
      - now rewrite list_lookup_fmap, Hj, <- Hid.
      - now rewrite list_lookup_fmap, Hi, <- Hx. }
    destruct (decide (j < i)%nat); lia.
Qed.

(** *** More on storage *)

Lemma step_storage (op : Op) (s : State) :
  localStorage (step op s) = localStorage s \/
  localStorage (step op s) = saveNotes (notes (step op s)) (localStorage s).
Proof.
  destruct op as [ts uuid|partial now| |arg now|c now|j]; simpl.
  - now right.
  - unfold updateSelected. destruct (string_falsy _); [now left|now right].
  - unfold deleteSelected. destruct (string_falsy _); [now left|].
    destruct (_ =? -1); [now left|now right].
  - unfold togglePin. destruct (string_falsy _); [now left|now right].
  - unfold setColor. destruct (string_falsy _); [now left|now right].
  - now left.
Qed.

Lemma saveNotes_frame (ns : list Note) (ls : Storage) (k : string) :
  (k <> STORAGE_KEY -> getItem k (saveNotes ns ls) = getItem k ls) /\
  (setItem_calls ls <= setItem_calls (saveNotes ns ls) <= S (setItem_calls ls))%nat.
Proof.
  unfold saveNotes, getItem. destruct browser; simpl.
  - split; [|lia]. intros Hk. now apply lookup_insert_ne.
  - split; [reflexivity|lia].
Qed.

(** X18.  Outside the browser no sequence of operations touches the
    storage. *)
Theorem no_browser_no_storage (ops : list Op) (s : State) :
  browser = false ->
  localStorage (run ops s) = localStorage s.
Proof.
  intros Hb. revert s. induction ops as [|op ops IH]; intros s; [reflexivity|].
  simpl. rewrite IH.
  destruct (step_storage op s) as [H|H]; rewrite H; [reflexivity|].
  unfold saveNotes. now rewrite Hb.
Qed.

(** X19.  Whatever the operations, they write under the one storage key
    only: every other item of the storage is left as it was. *)
Theorem other_keys_untouched (ops : list Op) (s : State) (k : string) :
  k <> STORAGE_KEY ->
  getItem k (localStorage (run ops s)) = getItem k (localStorage s).
Proof.
  intros Hk. revert s. induction ops as [|op ops IH]; intros s; [reflexivity|].
  simpl. rewrite IH.
  destruct (step_storage op s) as [H|H]; rewrite H; [reflexivity|].
  now apply saveNotes_frame.
Qed.



(** X22.  In the browser, once the storage item is the JSON text of the
    collection it remains so after any sequence of operations. *)
Theorem stored_is_kept (ops : list Op) (s : State) :
  browser = true ->
  stored s ->
  stored (run ops s).
Proof.
  intros Hb Hs. apply (run_stored ops s Hb). now left.
Qed.

(** *** The selected note and what is shown of it *)

Lemma find_Some {A} (p : A -> bool) (l : list A) (x : A) :
  find p l = Some x -> x ∈ l /\ p x = true.
Proof.
  induction l as [|a l IH]; simpl; [discriminate|].
  destruct (p a) eqn:Ha.
  - intros [= <-]. split; [apply list_elem_of_here|exact Ha].
  - intros H. destruct (IH H). split; [now apply list_elem_of_further|assumption].
Qed.

Lemma find_None {A} (p : A -> bool) (l : list A) :
  find p l = None <-> forall x, x ∈ l -> p x = false.
Proof.
  induction l as [|a l IH]; simpl.
  - split; [|reflexivity]. intros _ x Hx. now apply not_elem_of_nil in Hx.
  - destruct (p a) eqn:Ha.
    + split; [discriminate|]. intros H.
      rewrite (H a) in Ha by apply list_elem_of_here. discriminate.
    + rewrite IH. split.
      * intros H x Hx. apply elem_of_cons in Hx as [->|Hx]; auto.
      * intros H x Hx. apply H. now apply list_elem_of_further.
Qed.

Lemma find_fmap_hit (target : option string) (f : Note -> Note)
    (l : list Note) (n : Note) :
  (forall m, id (f m) = id m) ->
  find (id_is target) l = Some n ->
  find (id_is target) ((fun m => if id_is target m then f m else m) <$> l)
  = Some (f n).
Proof.
  intros Hf. induction l as [|a l IH]; simpl; [discriminate|].
  destruct (id_is target a) eqn:Ha.
  - intros [= <-].
    assert (Hfa : id_is target (f a) = true).
    { unfold id_is in *. now rewrite Hf. }
    now rewrite Hfa.
  - rewrite Ha. exact IH.
Qed.

(** X23.  The selected note, when there is one, is a note of the collection
    whose id is the selection; and there is none exactly when no note of the
    collection has the selection as its id. *)
Theorem selected_spec (s : State) :
  (forall n, selected s = Some n -> n ∈ notes s /\ selectedId s = Some (id n)) /\
  (selected s = None <-> forall n, n ∈ notes s -> selectedId s <> Some (id n)).
Proof.
  unfold selected. split.
  - intros n Hn. apply find_Some in Hn as [Hin Hid]. split; [exact Hin|].
    destruct (selectedId s) as [i|]; [|discriminate].
    apply id_is_true in Hid. now rewrite Hid.
  - rewrite find_None. split; intros H n Hn.
    + intros Hsel. specialize (H n Hn). rewrite Hsel in H.
      apply id_is_false in H. congruence.
    + specialize (H n Hn). destruct (selectedId s) as [i|]; [|reflexivity].
      apply id_is_false. congruence.
Qed.

(** X24.  At start-up the selected note is the first note of the loaded
    collection (none when it is empty). *)
Theorem initial_selected_is_first (loaded : list Note) (ls : Storage) :
  selected (initial_state loaded ls) = head loaded.
Proof.
  unfold selected, initial_state. destruct loaded as [|n rest]; [reflexivity|].
  simpl. now rewrite String.eqb_refl.
Qed.

(** X25.  Typing in the title field, or in the content field, of the editor
    edits the selected note (its id not being the empty string): afterwards
    the selected note has the typed text in that field and the current time
    as [updatedAt], and is otherwise as before. *)
Theorem input_edits_selected (s : State) (n : Note) (value : string) (now : Z) :
  selected s = Some n ->
  id n <> EmptyString ->
  (exists n', selected (onTitleInput value now s) = Some n' /\
     title n' = value /\ content n' = content n /\ updatedAt n' = now /\
     id n' = id n /\ createdAt n' = createdAt n /\
     pinned n' = pinned n /\ color n' = color n) /\
  (exists n', selected (onContentInput value now s) = Some n' /\
     content n' = value /\ title n' = title n /\ updatedAt n' = now /\
     id n' = id n /\ createdAt n' = createdAt n /\
     pinned n' = pinned n /\ color n' = color n).
Proof.
  intros Hsel Hne.
  assert (Hid : selectedId s = Some (id n)).
  { unfold selected in Hsel. apply find_Some in Hsel as [_ Hp].
    destruct (selectedId s) as [i|]; [|discriminate].
    apply id_is_true in Hp. now rewrite Hp. }
  unfold selected in *. unfold onTitleInput, onContentInput, updateSelected.
  rewrite Hid, (string_falsy_Some _ Hne) in *. cbn -[id_is]. rewrite ?Hid.
  split; eexists; (split; [apply find_fmap_hit; [reflexivity|exact Hsel]|]);
    repeat split.
Qed.


(** X27.  Pressing the pin button flips its label: when a note with a
    non-empty id is selected, after [togglePin()] the selected note is still
    the one with that id and its label is the other one of "Pin" and
    "Unpin". *)
Theorem pin_label_flips (s : State) (n : Note) (now : Z) :
  selected s = Some n ->
  id n <> EmptyString ->
  exists n', selected (togglePin None now s) = Some n' /\
    id n' = id n /\
    pin_label n' = (if boolean_truthy (pinned n) then "Pin" else "Unpin") /\
    pin_label n' <> pin_label n.
Proof.
  intros Hsel Hne.
  assert (Hid : selectedId s = Some (id n)).
  { unfold selected in Hsel. apply find_Some in Hsel as [_ Hp].
    destruct (selectedId s) as [i|]; [|discriminate].
    apply id_is_true in Hp. now rewrite Hp. }
  unfold selected in *. unfold togglePin.
  rewrite Hid in *. cbn [nullish]. rewrite (string_falsy_Some _ Hne).
  cbn -[id_is]. rewrite ?Hid.
  eexists. split; [apply find_fmap_hit; [reflexivity|exact Hsel]|].
  unfold pin_label. simpl.
  destruct (boolean_truthy (pinned n)); repeat split; discriminate.
Qed.

Lemma length_string_of_list_ascii (l : list ascii) :
  String.length (string_of_list_ascii l) = length l.
Proof. induction l as [|c l IH]; simpl; [reflexivity|now rewrite IH]. Qed.

Lemma string_of_list_ascii_app (a b : list ascii) :
  string_of_list_ascii (a ++ b)
  = (string_of_list_ascii a +:+ string_of_list_ascii b)%string.
Proof. induction a as [|c a IH]; simpl; [reflexivity|]. now rewrite IH. Qed.

(** X28.  The preview shown in the list is never empty and never longer
    than 60 characters, and for a note with content it is the beginning of
    that content. *)
Theorem preview_bounded (n : Note) :
  (String.length (preview n) <= 60)%nat /\
  preview n <> EmptyString /\
  (content n <> EmptyString -> exists rest, content n = (preview n +:+ rest)%string).
Proof.
  unfold preview, slice0.
  destruct (String.eqb_spec (content n) EmptyString) as [->|Hc].
  - repeat split; [simpl; lia|discriminate|congruence].
  - repeat split.
    + rewrite length_string_of_list_ascii, length_take. lia.
    + destruct (content n) as [|c rest]; [congruence|]. simpl. discriminate.
    + intros _.
      exists (string_of_list_ascii (drop 60 (list_ascii_of_string (content n)))).
      rewrite <- string_of_list_ascii_app, take_drop.
      symmetry. apply string_of_list_ascii_of_string.
Qed.

End Page.

(** ** The properties on sample data *)

(** Sorting, mode [updated]: a pinned note updated at 50 comes before an
    unpinned note updated at 100; unpinned notes go by recency. *)
Example sorted_updated_pin_wins :
  sorted Reference.collator_compare updated [Sample.plain; Sample.starred]
  = [Sample.starred; Sample.plain] /\
  sorted Reference.collator_compare updated [Sample.B; Sample.A; Sample.C]
  = [Sample.C; Sample.A; Sample.B].
Proof. split; reflexivity. Qed.

(** Sorting, mode [alpha], ignores case: "Apple" before "banana". *)
Example sorted_alpha_ignores_case :
  sorted Reference.collator_compare alpha [Sample.B; Sample.A]
  = [Sample.A; Sample.B].
Proof. vm_compute. reflexivity. Qed.

(** Deleting the selected b from a, b, c selects c; from a, b it selects a. *)
Example deleteSelected_next_then_previous :
  selectedId (deleteSelected true Reference.stringify Sample.abc) = Some "c" /\
  selectedId (deleteSelected true Reference.stringify Sample.ab) = Some "a".
Proof. split; reflexivity. Qed.

(** Corrupted, non-array and absent storage all start the page empty. *)
Example boot_from_bad_storage :
  loadNotes true Reference.parse (Reference.storage_with "{not json") = Normal [] /\
  loadNotes true Reference.parse (Reference.storage_with "{}") = Normal [] /\
  loadNotes true Reference.parse Reference.empty_storage = Normal [] /\
  selectedId <$> boot true Reference.parse (Reference.storage_with "{not json")
    = Some None.
Proof. repeat split; vm_compute; reflexivity. Qed.

(** *** Counterexamples to the claims as stated *)

(** C1 as stated fails: the created note is titled "Untitled", not "". *)
Lemma createNote_title_not_empty :
  ~ (exists note,
       head (notes (createNote true Reference.stringify 1000 "uuid-1" Sample.empty))
         = Some note /\
       title note = EmptyString /\ content note = EmptyString).
Proof.
  intros (note & Hhead & Htitle & _).
  simpl in Hhead. injection Hhead as <-. discriminate Htitle.
Qed.

(** C2 as stated fails: a selected note whose id is the empty string is
    present at index 0, yet [deleteSelected] returns at its guard and
    removes nothing. *)
Lemma deleteSelected_empty_id_kept :
  selectedId Sample.nameless = Some (id Sample.anonymous) /\
  notes Sample.nameless !! 0%nat = Some Sample.anonymous /\
  notes (deleteSelected true Reference.stringify Sample.nameless)
    <> delete 0%nat (notes Sample.nameless).
Proof. repeat split. discriminate. Qed.

(** C3 as stated fails: [selectNote] stores whatever id it is given. *)
Lemma selectNote_unknown_id_dangles :
  ~ selection_valid
      (run true Reference.stringify [OpSelect "ghost"]
         (initial_state [] Reference.empty_storage)).
Proof.
  intros Hvalid. destruct (Hvalid "ghost" eq_refl) as (n & Hn & _).
  simpl in Hn. now apply not_elem_of_nil in Hn.
Qed.

(** C6 as stated fails: a partial that supplies [id] changes the id. *)
Lemma updateSelected_changes_supplied_id :
  selectedId Sample.a_selected = Some (id Sample.A) /\
  notes Sample.a_selected !! 0%nat = Some Sample.A /\
  ~ (exists n',
       notes (updateSelected true Reference.stringify (Sample.rename_to "z") 40
                Sample.a_selected) !! 0%nat = Some n' /\
       id n' = id Sample.A).
Proof.
  repeat split. intros (n' & Hn' & Hid).
  simpl in Hn'. injection Hn' as <-. discriminate Hid.
Qed.

(** *** Instances *)

Lemma null_selection_noop_witness :
  selectedId Sample.unselected = None /\
  (updateSelected true Reference.stringify (Sample.retitle "x") 99 Sample.unselected
     = Sample.unselected /\
   deleteSelected true Reference.stringify Sample.unselected = Sample.unselected /\
   setColor true Reference.stringify (Val "#E3F2FD") 99 Sample.unselected
     = Sample.unselected /\
   togglePin true Reference.stringify None 99 Sample.unselected = Sample.unselected).
Proof.
  split; [reflexivity|].
  apply (null_selection_noop true Reference.stringify). reflexivity.
Defined.

Lemma sample_ids_not_gone (n : Note) : n ∈ notes Sample.stale -> id n <> "gone".
Proof.
  intros Hn. apply list_elem_of_In in Hn. simpl in Hn.
  destruct Hn as [<-|[<-|[]]]; discriminate.
Defined.

Lemma absent_target_noop_witness :
  (forall n, n ∈ notes Sample.stale -> id n <> "gone") /\
  selectedId Sample.stale = Some "gone" /\
  notes (updateSelected true Reference.stringify (Sample.retitle "x") 99 Sample.stale)
    = notes Sample.stale /\
  notes (deleteSelected true Reference.stringify Sample.stale) = notes Sample.stale /\
  selectedId (deleteSelected true Reference.stringify Sample.stale) = Some "gone" /\
  notes (togglePin true Reference.stringify (Some "gone") 99 Sample.stale)
    = notes Sample.stale.
Proof.
  pose proof (absent_target_noop true Reference.stringify Sample.stale "gone"
                (Sample.retitle "x") Null 99 sample_ids_not_gone) as [Hsel Hpin].
  destruct (Hsel eq_refl) as ((Hu & _) & (Hd & Hds) & _).
  destruct (Hpin (Some "gone") eq_refl) as (Hp & _).
  repeat split; try assumption. exact sample_ids_not_gone.
Defined.

Lemma sample_b_is_first (j : nat) (m : Note) :
  (j < 1)%nat -> notes Sample.abc !! j = Some m -> id m <> "b".
Proof.
  intros Hj. destruct j as [|j]; [|lia]. simpl. intros [= <-]. discriminate.
Defined.

Lemma deleteSelected_reselects_witness :
  selectedId Sample.abc = Some "b" /\
  notes Sample.abc !! 1%nat = Some Sample.B /\
  notes (deleteSelected true Reference.stringify Sample.abc)
    = delete 1%nat (notes Sample.abc) /\
  selectedId (deleteSelected true Reference.stringify Sample.abc)
    = match notes (deleteSelected true Reference.stringify Sample.abc) !! 1%nat with
      | Some next => Some (id next)
      | None => id <$> notes (deleteSelected true Reference.stringify Sample.abc) !! 0%nat
      end.
Proof.
  split; [reflexivity|]. split; [reflexivity|].
  apply (deleteSelected_reselects true Reference.stringify Sample.abc "b" 1 Sample.B).
  - reflexivity.
  - discriminate.
  - reflexivity.
  - reflexivity.
  - exact sample_b_is_first.
Defined.

Lemma updateSelected_frame_witness :
  selectedId Sample.a_selected = Some "a" /\
  length (notes (updateSelected true Reference.stringify (Sample.retitle "x") 40
                   Sample.a_selected))
    = length (notes Sample.a_selected).
Proof.
  split; [reflexivity|].
  apply (updateSelected_frame true Reference.stringify Sample.a_selected "a"
           (Sample.retitle "x") 40).
  - reflexivity.
  - discriminate.
Defined.

Lemma selection_never_dangles_witness :
  run_from_page true Reference.stringify Sample.session
    (initial_state [Sample.A; Sample.B] Reference.empty_storage) = true /\
  selection_valid
    (run true Reference.stringify Sample.session
       (initial_state [Sample.A; Sample.B] Reference.empty_storage)).
Proof.
  split; [vm_compute; reflexivity|].
  apply (selection_never_dangles true Reference.stringify).
  vm_compute. reflexivity.
Defined.

Lemma loadNotes_tolerant_witness :
  (getItem STORAGE_KEY Reference.empty_storage = None /\
   loadNotes true Reference.parse Reference.empty_storage = Normal []) /\
  (getItem STORAGE_KEY (Reference.storage_with "{not json") = Some "{not json" /\
   Reference.parse "{not json" = Throw "SyntaxError" /\
   loadNotes true Reference.parse (Reference.storage_with "{not json") = Normal []) /\
  (getItem STORAGE_KEY (Reference.storage_with "{}") = Some "{}" /\
   Reference.parse "{}" = Normal (JObj []) /\
   loadNotes true Reference.parse (Reference.storage_with "{}") = Normal []).
Proof.
  split; [|split].
  - split; [reflexivity|].
    apply (loadNotes_tolerant true Reference.parse Reference.empty_storage).
    reflexivity.
  - split; [reflexivity|]. split; [vm_compute; reflexivity|].
    apply (proj1 (proj2 (proj2
             (loadNotes_tolerant true Reference.parse
                (Reference.storage_with "{not json")))) "{not json" "SyntaxError").
    + reflexivity.
    + vm_compute. reflexivity.
  - split; [reflexivity|]. split; [vm_compute; reflexivity|].
    apply (proj1 (proj2 (proj2 (proj2
             (loadNotes_tolerant true Reference.parse
                (Reference.storage_with "{}"))))) "{}" (JObj [])).
    + reflexivity.
    + vm_compute. reflexivity.
    + discriminate.
Defined.

Lemma load_after_save_witness :
  (setItem_calls (localStorage Sample.a_selected)
   < setItem_calls
       (localStorage (run true Reference.stringify Sample.session Sample.a_selected)))%nat /\
  loadNotes_typed true Reference.parse
    (localStorage (run true Reference.stringify Sample.session Sample.a_selected))
  = Some (notes (run true Reference.stringify Sample.session Sample.a_selected)).
Proof.
  assert (Hwrote :
    (setItem_calls (localStorage Sample.a_selected)
     < setItem_calls
         (localStorage (run true Reference.stringify Sample.session Sample.a_selected)))%nat).
  { vm_compute. lia. }
  split; [exact Hwrote|].
  apply (load_after_save true Reference.parse Reference.stringify
           Sample.session Sample.a_selected).
  - reflexivity.
  - exact Hwrote.
  - vm_compute. reflexivity.
  - vm_compute. discriminate.
Defined.

Lemma matches_spec_witness :
  matches Reference.toLowerCase Sample.C "todo" = true /\
  Sample.C ∈ filtered Reference.toLowerCase Reference.collator_compare
               (Sample.state_of [Sample.A; Sample.C] None Reference.empty_storage).
Proof.
  destruct (matches_spec Reference.toLowerCase Reference.collator_compare
              Sample.C "todo"
              (Sample.state_of [Sample.A; Sample.C] None Reference.empty_storage))
    as [Hmatch Hview].
  split.
  - apply Hmatch. right. left. exists "my ", " list". reflexivity.
  - apply Hview. split; [|split].
    + apply list_elem_of_further, list_elem_of_here.
    + reflexivity.
    + discriminate.
Defined.

(** *** Instances of the further properties *)

Lemma reference_collator_le (a b : string) :
  Reference.collator_compare a b <= 0 <->
  String.le (Reference.toLowerCase a) (Reference.toLowerCase b).
Proof.
  unfold Reference.collator_compare, String.le, String.leb.
  destruct (String.compare _ _); simpl; split; intros H; try lia; exact I.
Defined.

Lemma reference_collator_consistent :
  collator_consistent Reference.collator_compare.
Proof.
  split.
  - intros x y z. rewrite !reference_collator_le. apply transitivity.
  - intros x y Hxy. apply reference_collator_le.
    destruct (total String.le (Reference.toLowerCase x) (Reference.toLowerCase y))
      as [Hle|Hle]; [|exact Hle].
    apply reference_collator_le in Hle. lia.
Defined.

Lemma sample_flagged (l : list Note) :
  l = [Sample.B; Sample.A] \/ l = [Sample.A; Sample.A2] ->
  Forall (fun n => pinned n <> None) l.
Proof. intros [->| ->]; repeat constructor; discriminate. Defined.

Lemma sorted_groups_ordered_witness :
  precedes Sample.A Sample.B
    (sorted Reference.collator_compare alpha [Sample.B; Sample.A]) /\
  Reference.collator_compare (title Sample.A) (title Sample.B) <= 0.
Proof.
  assert (Hpre : precedes Sample.A Sample.B
                   (sorted Reference.collator_compare alpha [Sample.B; Sample.A])).
  { exists [], [], []. vm_compute. reflexivity. }
  split; [exact Hpre|].
  apply (sorted_groups_ordered Reference.collator_compare alpha
           [Sample.B; Sample.A] Sample.A Sample.B).
  - intros _. exact reference_collator_consistent.
  - apply sample_flagged. now left.
  - exact Hpre.
  - reflexivity.
Defined.

Lemma sorted_idempotent_witness :
  sorted Reference.collator_compare alpha
    (sorted Reference.collator_compare alpha [Sample.B; Sample.A])
  = sorted Reference.collator_compare alpha [Sample.B; Sample.A].
Proof.
  apply sorted_idempotent.
  - intros _. exact reference_collator_consistent.
  - apply sample_flagged. now left.
Defined.

Lemma sorted_stable_witness :
  precedes Sample.A Sample.A2 [Sample.A; Sample.A2] /\
  precedes Sample.A Sample.A2
    (sorted Reference.collator_compare updated [Sample.A; Sample.A2]).
Proof.
  assert (Hpre : precedes Sample.A Sample.A2 [Sample.A; Sample.A2])
    by (now exists [], [], []).
  split; [exact Hpre|].
  apply sorted_stable.
  - discriminate.
  - apply sample_flagged. now right.
  - exact Hpre.
  - vm_compute. discriminate.
Defined.

Lemma filtered_shows_all_witness :
  Permutation
    (filtered Reference.toLowerCase Reference.collator_compare Sample.abc)
    (notes Sample.abc).
Proof. apply filtered_shows_all; reflexivity. Defined.

Lemma matches_blank_query_witness :
  normalize Reference.toLowerCase "   " = EmptyString /\
  matches Reference.toLowerCase Sample.A "   " = true.
Proof.
  split; [vm_compute; reflexivity|].
  apply matches_blank_query. vm_compute. reflexivity.
Defined.

Lemma togglePin_frame_witness :
  nullish None (selectedId Sample.abc) = Some "b" /\
  selectedId (togglePin true Reference.stringify None 99 Sample.abc)
    = selectedId Sample.abc.
Proof.
  split; [reflexivity|].
  apply (togglePin_frame true Reference.stringify Sample.abc None "b" 99).
  - reflexivity.
  - discriminate.
Defined.

Lemma togglePin_twice_witness :
  exists n'',
    notes (togglePin true Reference.stringify None 98
             (togglePin true Reference.stringify None 97 Sample.abc)) !! 1%nat
      = Some n'' /\
    boolean_truthy (pinned n'') = boolean_truthy (pinned Sample.B) /\
    id n'' = id Sample.B /\ title n'' = title Sample.B /\
    content n'' = content Sample.B /\ createdAt n'' = createdAt Sample.B /\
    color n'' = color Sample.B.
Proof.
  apply (togglePin_twice true Reference.stringify Sample.abc None "b" 97 98).
  - reflexivity.
  - discriminate.
  - reflexivity.
Defined.

Lemma setColor_frame_witness :
  selectedId Sample.abc = Some "b" /\
  length (notes (setColor true Reference.stringify (Val "#E8F5E9") 99 Sample.abc))
    = length (notes Sample.abc).
Proof.
  split; [reflexivity|].
  apply (setColor_frame true Reference.stringify Sample.abc "b" (Val "#E8F5E9") 99).
  - reflexivity.
  - discriminate.
Defined.

Lemma createNote_then_delete_witness :
  notes (deleteSelected true Reference.stringify
           (createNote true Reference.stringify 50 "n1" Sample.abc))
    = notes Sample.abc /\
  selectedId (deleteSelected true Reference.stringify
                (createNote true Reference.stringify 50 "n1" Sample.abc))
    = id <$> head (notes Sample.abc).
Proof. apply createNote_then_delete. discriminate. Defined.

Lemma sample_ids_distinct : NoDup (id <$> notes Sample.abc).
Proof.
  simpl. repeat (apply NoDup_cons; split); try apply NoDup_nil_2;
    rewrite ?elem_of_cons; intros H;
    repeat (destruct H as [H|H]; [discriminate H|]);
    now apply not_elem_of_nil in H.
Defined.

Lemma ids_stay_unique_witness :
  run_from_page true Reference.stringify Sample.session Sample.abc = true /\
  run_fresh_ids true Reference.stringify Sample.session Sample.abc = true /\
  NoDup (id <$> notes (run true Reference.stringify Sample.session Sample.abc)).
Proof.
  split; [vm_compute; reflexivity|]. split; [vm_compute; reflexivity|].
  apply ids_stay_unique.
  - exact sample_ids_distinct.
  - vm_compute. reflexivity.
  - vm_compute. reflexivity.
Defined.

Lemma timestamps_stay_ordered_witness :
  Forall (fun n => createdAt n <= updatedAt n)
    (notes (step true Reference.stringify (OpTogglePin None 200) Sample.abc)).
Proof.
  apply (timestamps_stay_ordered true Reference.stringify (OpTogglePin None 200)
           200 Sample.abc).
  - repeat constructor; simpl; lia.
  - repeat constructor; simpl; lia.
  - reflexivity.
Defined.

Lemma deleteSelected_removes_id_witness :
  S (length (notes (deleteSelected true Reference.stringify Sample.abc)))
    = length (notes Sample.abc) /\
  forall n, n ∈ notes (deleteSelected true Reference.stringify Sample.abc) ->
            id n <> "b".
Proof.
  apply deleteSelected_removes_id.
  - exact sample_ids_distinct.
  - reflexivity.
  - discriminate.
  - exists Sample.B. split; [|reflexivity].
    apply list_elem_of_further, list_elem_of_here.
Defined.

Lemma no_browser_no_storage_witness :
  localStorage (run false Reference.stringify Sample.session Sample.abc)
  = localStorage Sample.abc.
Proof. apply no_browser_no_storage. reflexivity. Defined.

Lemma other_keys_untouched_witness :
  getItem "theme"
    (localStorage (run true Reference.stringify Sample.session
                     Sample.in_shared_storage))
  = Some "dark".
Proof.
  rewrite (other_keys_untouched true Reference.stringify Sample.session
             Sample.in_shared_storage "theme").
  - reflexivity.
  - unfold STORAGE_KEY. discriminate.
Defined.


Lemma stored_is_kept_witness :
  stored Reference.stringify
    (run true Reference.stringify Sample.session
       (createNote true Reference.stringify 5 "n0" Sample.abc)).
Proof.
  apply stored_is_kept.
  - reflexivity.
  - unfold stored. vm_compute. reflexivity.
Defined.

Lemma selected_spec_witness :
  Sample.B ∈ notes Sample.abc /\ selectedId Sample.abc = Some (id Sample.B).
Proof. apply (proj1 (selected_spec Sample.abc) Sample.B). reflexivity. Defined.

Lemma input_edits_selected_witness :
  exists n',
    selected (onTitleInput true Reference.stringify "groceries" 99 Sample.abc)
      = Some n' /\
    title n' = "groceries" /\ content n' = content Sample.B /\
    updatedAt n' = 99 /\ id n' = id Sample.B /\
    createdAt n' = createdAt Sample.B /\
    pinned n' = pinned Sample.B /\ color n' = color Sample.B.
Proof.
  apply (input_edits_selected true Reference.stringify Sample.abc Sample.B
           "groceries" 99).
  - reflexivity.
  - discriminate.
Defined.

Lemma pin_label_flips_witness :
  exists n',
    selected (togglePin true Reference.stringify None 99 Sample.abc) = Some n' /\
    id n' = id Sample.B /\
    pin_label n' = (if boolean_truthy (pinned Sample.B) then "Pin" else "Unpin") /\
    pin_label n' <> pin_label Sample.B.
Proof.
  apply (pin_label_flips true Reference.stringify Sample.abc Sample.B 99).
  - reflexivity.
  - discriminate.
Defined.

Lemma preview_bounded_witness :
  exists rest, content Sample.memo = (preview Sample.memo +:+ rest)%string.
Proof. apply (proj2 (proj2 (preview_bounded Sample.memo))). discriminate. Defined.
